(** * Buffon's needles: the Monte Carlo simulation of [Buffon_MC.py]

    A shallow embedding of the three computational parts of the script,

    - [generate_needles_batch]   (the needle sampler),
    - [check_intersections_batch] (the intersection classifier),
    - [update]                    (the per-frame accumulator),

    and the properties of them that the specification states.

    Numbers.  The script computes on [float64].  The classifier is read
    twice.  In [Float64] it is transcribed on IEEE binary64 numbers, every
    operation rounded and [int] a conversion to [int64]: what the
    classifier decides, and whether its loop is left, is settled there.  In
    [Classifier] it is read on exact rationals with an unbounded [int];
    this reading is the one the model of [update] runs, and the statements
    about the accumulator are about counts and lists and do not depend on
    which needles it calls intersecting.  The sampler is read on exact rationals where [update]
    runs it and on the reals where its trigonometry is reasoned about.

    Rendering (figure, collections, legends, opacity) is left out, except
    for the text of the pi estimate that [update] writes into a title. *)

From Stdlib Require Import ZArith QArith Qround Qminmax List Bool Lia.
From Stdlib Require Import Reals Psatz.
From Stdlib Require PrimFloat FloatOps SpecFloat Uint63.
Import ListNotations.

Set Implicit Arguments.

(* ------------------------------------------------------------------ *)
(** ** Outcomes of a run of Python code *)

(** The exceptions the modelled code can raise. *)
Inductive exn : Type :=
| ZeroDivisionError   (* a division by zero *)
| ValueError          (* [np.empty] with a negative dimension *)
| IndexError.         (* an index out of range *)

(** A computation returns, raises, or is still running when the fuel given
    to its [while] loops is used up. *)
Inductive result (A : Type) : Type :=
| Ok (a : A)
| Raise (e : exn)
| OutOfFuel.

Arguments Ok {A} a.
Arguments Raise {A} e.
Arguments OutOfFuel {A}.

Definition bind {A B : Type} (m : result A) (k : A -> result B) : result B :=
  match m with
  | Ok a => k a
  | Raise e => Raise e
  | OutOfFuel => OutOfFuel
  end.

Declare Scope result_scope.
Delimit Scope result_scope with result.
Notation "x <- m ;; k" := (bind m (fun x => k))
  (at level 61, m at next level, right associativity) : result_scope.
Open Scope result_scope.

(** [xs[i]] on a Python sequence, for [i >= 0]. *)
Definition index {A : Type} (xs : list A) (i : nat) : result A :=
  match nth_error xs i with
  | Some x => Ok x
  | None => Raise IndexError
  end.

(** [mapM]: run [f] on every element, left to right, stopping at the first
    element on which it does not return. *)
Fixpoint for_each {A B : Type} (f : A -> result B) (xs : list A)
  : result (list B) :=
  match xs with
  | [] => Ok []
  | x :: rest =>
      b <- f x ;;
      bs <- for_each f rest ;;
      Ok (b :: bs)
  end.

(* ------------------------------------------------------------------ *)
(** ** Float operations on exact rationals *)

Open Scope Q_scope.

(** [a / b] on exact numbers, with Python's rule for a zero divisor: it
    raises.  (The jitted classifier does not raise: there the quotient is
    an infinity or not a number, see [Float64].) *)
Definition fdiv (a b : Q) : result Q :=
  if Qeq_bool b 0 then Raise ZeroDivisionError else Ok (a / b).

(** [int(q)] on exact numbers: truncation toward zero, to an unbounded
    integer. *)
Definition int (q : Q) : Z := Z.quot (Qnum q) (Zpos (Qden q)).

(** [min(a, b)] and [max(a, b)] of two floats. *)
Definition pymin (a b : Q) : Q := if Qle_bool a b then a else b.
Definition pymax (a b : Q) : Q := if Qle_bool b a then a else b.

(** [a <= b <= c], a chained comparison. *)
Definition between (a b c : Q) : bool := Qle_bool a b && Qle_bool b c.

(* ------------------------------------------------------------------ *)
(** ** The intersection classifier on exact numbers *)

(** A row of the [(n, 4)] array [positions]: [x1, y1, x2, y2]. *)
Record needle (num : Type) : Type := Needle {
  x1 : num;
  y1 : num;
  x2 : num;
  y2 : num
}.

Module Classifier.

(** The [while line_y <= line_above] loop of lines 101-107, started with
    [intersects[i] = False], on exact numbers.  One unit of fuel pays for
    one evaluation of the loop condition. *)
Fixpoint sweep (fuel : nat) (y_min y_max spacing line_above line_y : Q)
  : result bool :=
  match fuel with
  | O => OutOfFuel
  | S fuel' =>
      if Qle_bool line_y line_above then
        if between y_min line_y y_max then Ok true
        else sweep fuel' y_min y_max spacing line_above (line_y + spacing)
      else Ok false
  end.

(** The body of the [prange] loop, lines 90-107, for one row, on exact
    numbers. *)
Definition check_intersection (fuel : nat) (row : needle Q) (spacing : Q)
  : result bool :=
  let y_min := pymin (y1 row) (y2 row) in
  let y_max := pymax (y1 row) (y2 row) in
  lo <- fdiv y_min spacing ;;
  hi <- fdiv y_max spacing ;;
  let line_below := inject_Z (int lo) * spacing in
  let line_above := inject_Z (int hi + 1) * spacing in
  sweep fuel y_min y_max spacing line_above line_below.

(** [check_intersections_batch(positions, spacing)].  The iterations of the
    [prange] loop are independent: each reads one row and writes one cell. *)
Definition check_intersections_batch (fuel : nat) (positions : list (needle Q))
  (spacing : Q) : result (list bool) :=
  for_each (fun row => check_intersection fuel row spacing) positions.

End Classifier.

(* ------------------------------------------------------------------ *)
(** ** The intersection classifier on [float64] *)

(** Lines 83-109 once more, now on IEEE binary64 numbers with every
    operation rounded as the machine rounds it, and with [int] the
    conversion to a signed 64-bit integer.  This is the reading on which
    the properties of the classifier itself are settled; the module
    [Classifier] above is the same code read on exact numbers, which the
    model of [update] runs. *)
Module Float64.

Import PrimFloat.

(** What a call of the jitted classifier does: it returns; or its [while]
    loop is still running when the fuel is used up; or it converts to
    [int64] a float that has no [int64] value, after which the machine code
    may compute anything.  The jitted code raises no exception. *)
Inductive outcome (A : Type) : Type :=
| Returns (a : A)
| Running
| Unspecified.

Arguments Returns {A} a.
Arguments Running {A}.
Arguments Unspecified {A}.

(** The integer a finite float truncates to, toward zero. *)
Definition truncate (f : float) : option Z :=
  match FloatOps.Prim2SF f with
  | SpecFloat.S754_zero _ => Some 0%Z
  | SpecFloat.S754_finite s m e =>
      let mag := (if 0 <=? e then Z.pos m * 2 ^ e
                  else Z.pos m / 2 ^ (- e))%Z in
      Some (if s then (- mag)%Z else mag)
  | SpecFloat.S754_infinity _ => None
  | SpecFloat.S754_nan => None
  end.

(** [int(f)] in jitted code: the truncation when it is an [int64]. *)
Definition int (f : float) : option Z :=
  match truncate f with
  | Some z =>
      if ((- 2 ^ 63 <=? z) && (z <? 2 ^ 63))%Z then Some z else None
  | None => None
  end.

(** [int64] addition wraps around. *)
Definition wrap (z : Z) : Z := ((z + 2 ^ 63) mod 2 ^ 64 - 2 ^ 63)%Z.

(** An [int64] as a float, rounded to nearest. *)
Definition of_magnitude (m : Z) : float :=
  if (m <? 2 ^ 63)%Z then of_uint63 (Uint63.of_Z m)
  else (of_uint63 (Uint63.of_Z (m / 2)) * 2)%float.

Definition of_int (z : Z) : float :=
  if (z <? 0)%Z then (- of_magnitude (- z))%float else of_magnitude z.

(** [min(a, b)], [max(a, b)] and [a <= b <= c] on floats. *)
Definition pymin (a b : float) : float := if (b <? a)%float then b else a.
Definition pymax (a b : float) : float := if (a <? b)%float then b else a.
Definition between (a b c : float) : bool :=
  ((a <=? b)%float && (b <=? c)%float)%bool.

(** The [while line_y <= line_above] loop of lines 101-107; one unit of
    fuel pays for one evaluation of the loop condition. *)
Fixpoint sweep (fuel : nat) (y_min y_max spacing line_above line_y : float)
  : outcome bool :=
  match fuel with
  | O => Running
  | S fuel' =>
      if (line_y <=? line_above)%float then
        if between y_min line_y y_max then Returns true
        else sweep fuel' y_min y_max spacing line_above
                   (line_y + spacing)%float
      else Returns false
  end.

(** The same loop, returning next to its result the values [line_y] had
    each time the loop body was entered. *)
Fixpoint sweep_trace (fuel : nat)
  (y_min y_max spacing line_above line_y : float)
  : outcome (bool * list float) :=
  match fuel with
  | O => Running
  | S fuel' =>
      if (line_y <=? line_above)%float then
        if between y_min line_y y_max then Returns (true, [line_y])
        else
          match sweep_trace fuel' y_min y_max spacing line_above
                            (line_y + spacing)%float with
          | Returns r => Returns (fst r, line_y :: snd r)
          | Running => Running
          | Unspecified => Unspecified
          end
      else Returns (false, [])
  end.

(** Lines 97-98: [line_below] and [line_above], when both conversions have
    a value. *)
Definition line_bounds (row : needle float) (spacing : float)
  : option (float * float) :=
  let y_min := pymin (y1 row) (y2 row) in
  let y_max := pymax (y1 row) (y2 row) in
  match int (y_min / spacing)%float, int (y_max / spacing)%float with
  | Some lo, Some hi =>
      Some ((of_int lo * spacing)%float,
            (of_int (wrap (hi + 1)) * spacing)%float)
  | _, _ => None
  end.

(** The body of the [prange] loop, lines 90-107, for one row. *)
Definition check_intersection (fuel : nat) (row : needle float)
  (spacing : float) : outcome bool :=
  let y_min := pymin (y1 row) (y2 row) in
  let y_max := pymax (y1 row) (y2 row) in
  match line_bounds row spacing with
  | Some (line_below, line_above) =>
      sweep fuel y_min y_max spacing line_above line_below
  | None => Unspecified
  end.

(** The candidate line positions the loop visits for one row. *)
Definition candidates (fuel : nat) (row : needle float) (spacing : float)
  : outcome (bool * list float) :=
  let y_min := pymin (y1 row) (y2 row) in
  let y_max := pymax (y1 row) (y2 row) in
  match line_bounds row spacing with
  | Some (line_below, line_above) =>
      sweep_trace fuel y_min y_max spacing line_above line_below
  | None => Unspecified
  end.

(** [check_intersections_batch(positions, spacing)]: the call returns when
    every iteration of the [prange] loop has. *)
Fixpoint check_intersections_batch (fuel : nat)
  (positions : list (needle float)) (spacing : float)
  : outcome (list bool) :=
  match positions with
  | [] => Returns []
  | row :: rest =>
      match check_intersection fuel row spacing with
      | Returns b =>
          match check_intersections_batch fuel rest spacing with
          | Returns bs => Returns (b :: bs)
          | Running => Running
          | Unspecified => Unspecified
          end
      | Running => Running
      | Unspecified => Unspecified
      end
  end.

(** The rational a finite float is ([0] for the others). *)
Definition exact (f : float) : Q :=
  match FloatOps.Prim2SF f with
  | SpecFloat.S754_finite s m e =>
      let mag := if (0 <=? e)%Z then inject_Z (Z.pos m * 2 ^ e)
                 else Z.pos m # Z.to_pos (2 ^ (- e)) in
      if s then - mag else mag
  | _ => 0
  end.

(** [l] lists [start], [start + step], [start + step + step], ..., each sum
    rounded. *)
Fixpoint progression (start step : float) (l : list float) : Prop :=
  match l with
  | [] => True
  | v :: rest => v = start /\ progression (start + step)%float step rest
  end.

(** The value [line_y] has after the loop body has run on each candidate
    of [l], when it had the value [start] before. *)
Fixpoint after (start step : float) (l : list float) : float :=
  match l with
  | [] => start
  | _ :: rest => after (start + step)%float step rest
  end.

End Float64.

(* ------------------------------------------------------------------ *)
(** ** The needle sampler *)

(** The float operations the sampler uses.  They are an interface so that
    the one definition of the sampler below is read on the rationals, with
    [np.cos] and [np.sin] any two functions, when the simulation is run, and
    on the reals, with the real cosine and sine, when the geometry of a
    needle is stated. *)
Class FloatOps (num : Type) : Type := {
  fadd : num -> num -> num;
  fsub : num -> num -> num;
  fmul : num -> num -> num;
  fcos : num -> num;
  fsin : num -> num;
  fint : Z -> num;      (* an integer literal read as a float *)
  fpi : num             (* [np.pi] *)
}.

Section Sampler.

Context {num : Type} {ops : FloatOps num}.

(** The random source: [rnd i j] is the [j]-th variate of the unit interval
    drawn by iteration [i] of the [prange] loop.  Indexing the draws by the
    iteration makes the batch independent of how the iterations are
    scheduled. *)
Variable rnd : nat -> nat -> num.

(** [np.random.uniform(lo, hi)] is [lo + (hi - lo) * u] for a unit
    variate [u]. *)
Definition uniform (lo hi u : num) : num := fadd lo (fmul (fsub hi lo) u).

(** Lines 67-79: row [i] of [positions]. *)
Definition generate_needle (length x_min x_max y_min y_max : num) (i : nat)
  : needle num :=
  let x := uniform x_min x_max (rnd i 0) in
  let y := uniform y_min y_max (rnd i 1) in
  let angle := uniform (fint 0) (fmul (fint 2) fpi) (rnd i 2) in
  Needle x y (fadd x (fmul length (fcos angle)))
             (fadd y (fmul length (fsin angle))).

(** [generate_needles_batch(n, length, x_min, x_max, y_min, y_max)]:
    [np.empty((n, 4))] refuses a negative [n]; then row [i] is filled for
    every [i] in [prange(n)]. *)
Definition generate_needles_batch (n : Z)
  (length x_min x_max y_min y_max : num) : result (list (needle num)) :=
  if (n <? 0)%Z then Raise ValueError
  else Ok (map (generate_needle length x_min x_max y_min y_max)
               (seq 0 (Z.to_nat n))).

End Sampler.

(** The floats of the running program: exact rationals, [np.pi] the
    [float64] constant, cosine and sine two given functions. *)
Definition pi_float64 : Q := 884279719003555 # 281474976710656.

Definition QOps (cosf sinf : Q -> Q) : FloatOps Q := {|
  fadd := Qplus;
  fsub := Qminus;
  fmul := Qmult;
  fcos := cosf;
  fsin := sinf;
  fint := inject_Z;
  fpi := pi_float64
|}.

(** The floats of the geometry: real numbers. *)
Definition ROps : FloatOps R := {|
  fadd := Rplus;
  fsub := Rminus;
  fmul := Rmult;
  fcos := cos;
  fsin := sin;
  fint := IZR;
  fpi := PI
|}.

(** Euclidean length of a needle over the reals. *)
Definition needle_length (s : needle R) : R :=
  sqrt (Rsqr (x2 s - x1 s) + Rsqr (y2 s - y1 s)).

(* ------------------------------------------------------------------ *)
(** ** The accumulator: module state and [update] *)

Module Accumulator.

Import Classifier.

(** Lines 8-11, the parameters of a run. *)
Record config : Type := Config {
  NEEDLE_LENGTH : Q;
  LINE_SPACING : Q;
  N_NEEDLES_PER_FRAME : Z;
  MAX_NEEDLES : Z
}.

(** The values the script is shipped with. *)
Definition default_config : config := Config 1 1 10 2000.

(** [[(x1, y1), (x2, y2)]] *)
Definition segment : Type := (Q * Q) * (Q * Q).

(** The text [pi_text] of lines 162-166: a formatted estimate or ['N/A']. *)
Inductive pi_string : Type :=
| NA
| Estimate (pi_estimate : Q).

(** The globals of lines 44-51, and the estimate shown in the title of
    the second plot ([None] as long as line 171 has not run). *)
Record state : Type := State {
  n_intersections : Z;
  n_total : Z;
  history_n : list Z;
  history_ratio : list Q;
  green_needles : list segment;
  red_needles : list segment;
  pi_text : option pi_string
}.

Definition init_state : state := State 0 0 [] [] [] [] None.

(** Lines 129-138, one iteration of the [for i in range(n_to_add)] loop. *)
Definition add_needle (positions : list (needle Q)) (intersects : list bool)
  (st : state) (i : nat) : result state :=
  row <- index positions i ;;
  let seg : segment := ((x1 row, y1 row), (x2 row, y2 row)) in
  hit <- index intersects i ;;
  let st1 :=
    if (hit : bool) then
      State (n_intersections st + 1) (n_total st)
            (history_n st) (history_ratio st)
            (green_needles st ++ [seg]) (red_needles st) (pi_text st)
    else
      State (n_intersections st) (n_total st)
            (history_n st) (history_ratio st)
            (green_needles st) (red_needles st ++ [seg]) (pi_text st) in
  Ok (State (n_intersections st1) (n_total st1 + 1)
            (history_n st1) (history_ratio st1)
            (green_needles st1) (red_needles st1) (pi_text st1)).

(** Lines 128-138. *)
Fixpoint separate (positions : list (needle Q)) (intersects : list bool)
  (range : list nat) (st : state) : result state :=
  match range with
  | [] => Ok st
  | i :: rest =>
      st1 <- add_needle positions intersects st i ;;
      separate positions intersects rest st1
  end.

(** Lines 150-171: history and the pi estimate.  The threshold [0.01] is
    read as the exact hundredth.  A call that raises has no resulting
    state here: what it had appended before raising is not kept. *)
Definition report (cfg : config) (frame : Z) (st : state) : result state :=
  if (0 <? n_total st)%Z then
    ratio <- fdiv (inject_Z (n_intersections st)) (inject_Z (n_total st)) ;;
    text <- (if Qle_bool ratio (1 # 100) then Ok NA
             else
               pi_estimate <- fdiv (2 * NEEDLE_LENGTH cfg)
                                   (ratio * LINE_SPACING cfg) ;;
               Ok (Estimate pi_estimate)) ;;
    _ <- fdiv (100 * inject_Z (n_intersections st)) (inject_Z (n_total st)) ;;
    Ok (State (n_intersections st) (n_total st)
              (history_n st ++ [n_total st]) (history_ratio st ++ [ratio])
              (green_needles st) (red_needles st) (Some text))
  else Ok st.

Section Update.

(** [np.cos] and [np.sin] on floats. *)
Variables cosf sinf : Q -> Q.

(** The size of the batch a frame adds, line 123. *)
Definition n_to_add (cfg : config) (st : state) : Z :=
  Z.min (N_NEEDLES_PER_FRAME cfg) (MAX_NEEDLES cfg - n_total st).

(** [update(frame)], lines 115-173.  [rnd] is what the random source gives
    during this call, [fuel] is given to each [while] loop of the
    classifier. *)
Definition update (cfg : config) (fuel : nat) (st : state)
  (frame : Z) (rnd : nat -> nat -> Q) : result state :=
  if (MAX_NEEDLES cfg <=? n_total st)%Z then Ok st
  else
    let n := n_to_add cfg st in
    positions <- generate_needles_batch (ops := QOps cosf sinf) rnd n
                   (NEEDLE_LENGTH cfg) 0 10 0 10 ;;
    intersects <- check_intersections_batch fuel positions
                    (LINE_SPACING cfg) ;;
    st1 <- separate positions intersects (seq 0 (Z.to_nat n)) st ;;
    report cfg frame st1.

(** The animation: [update] called frame after frame. *)
Fixpoint run (cfg : config) (fuel : nat) (st : state)
  (frames : list (Z * (nat -> nat -> Q))) : result state :=
  match frames with
  | [] => Ok st
  | (frame, rnd) :: rest =>
      st1 <- update cfg fuel st frame rnd ;;
      run cfg fuel st1 rest
  end.

End Update.

End Accumulator.

(* ------------------------------------------------------------------ *)
(** ** The animation around [update] *)

(** [range(n)] on integers: empty when [n <= 0]. *)
Definition range (n : Z) : list Z := map Z.of_nat (seq 0 (Z.to_nat n)).

Module Animation.

Import Accumulator.

(** Line 177: [frames = MAX_NEEDLES // N_NEEDLES_PER_FRAME + 1], a floor
    division of integers. *)
Definition frame_count (cfg : config) : result Z :=
  if (N_NEEDLES_PER_FRAME cfg =? 0)%Z then Raise ZeroDivisionError
  else Ok (MAX_NEEDLES cfg / N_NEEDLES_PER_FRAME cfg + 1)%Z.

(** Lines 176-178: the animation calls [update(frame)] for every [frame]
    of [range(frames)], once ([repeat=False]); [rnds frame] is what the
    random source gives during the call for [frame]. *)
Definition animate (cosf sinf : Q -> Q) (cfg : config) (fuel : nat)
  (rnds : Z -> nat -> nat -> Q) : result state :=
  n <- frame_count cfg ;;
  run cosf sinf cfg fuel init_state
      (map (fun frame => (frame, rnds frame)) (range n)).

End Animation.

(* ------------------------------------------------------------------ *)
(** ** Notions the properties are stated with *)

(** A needle crosses the line family of spacing [s]: some line [k * s]
    lies in the closed interval of its endpoint ordinates. *)
Definition crosses (row : needle Q) (s : Q) : Prop :=
  exists k : Z,
    Qmin (y1 row) (y2 row) <= inject_Z k * s /\
    inject_Z k * s <= Qmax (y1 row) (y2 row).

(** Number of [True] cells of a boolean array. *)
Definition count_true (bs : list bool) : Z :=
  Z.of_nat (length (filter (fun b : bool => b) bs)).

(** The ordinates of a batch: what is left of it once the abscissas are
    forgotten. *)
Definition ordinates (positions : list (needle Q)) : list (Q * Q) :=
  map (fun row => (y1 row, y2 row)) positions.

(** The state after one needle [row] classified [hit] is accounted for. *)
Definition push (st : Accumulator.state) (rh : needle Q * bool)
  : Accumulator.state :=
  let (row, hit) := rh in
  let seg := ((x1 row, y1 row), (x2 row, y2 row)) in
  Accumulator.State
    (if hit then Accumulator.n_intersections st + 1
     else Accumulator.n_intersections st)
    (Accumulator.n_total st + 1)
    (Accumulator.history_n st) (Accumulator.history_ratio st)
    (if hit then Accumulator.green_needles st ++ [seg]
     else Accumulator.green_needles st)
    (if hit then Accumulator.red_needles st
     else Accumulator.red_needles st ++ [seg])
    (Accumulator.pi_text st).

(** The empirical ratio of a state, and the text the guarded estimate has
    for it: ['N/A'] up to a hundredth, [2 L / (p D)] above. *)
Definition p_hat (st : Accumulator.state) : Q :=
  inject_Z (Accumulator.n_intersections st) /
  inject_Z (Accumulator.n_total st).

Definition guarded_estimate (cfg : Accumulator.config)
  (st : Accumulator.state) : Accumulator.pi_string :=
  if Qle_bool (p_hat st) (1 # 100) then Accumulator.NA
  else Accumulator.Estimate
         (2 * Accumulator.NEEDLE_LENGTH cfg /
          (p_hat st * Accumulator.LINE_SPACING cfg)).

(** The estimate shown agrees with the totals: none before the first
    needle, the guarded one after. *)
Definition estimate_shown (cfg : Accumulator.config)
  (st : Accumulator.state) : Prop :=
  (0 <= Accumulator.n_total st)%Z /\
  (Accumulator.n_total st = 0%Z -> Accumulator.pi_text st = None) /\
  ((0 < Accumulator.n_total st)%Z ->
   Accumulator.pi_text st = Some (guarded_estimate cfg st)).

(** Stand-ins for the random source and for [np.cos], [np.sin] in the
    examples: every unit variate is a half, the cosine and sine are those
    of the 3-4-5 triangle. *)
Definition half_draws (i j : nat) : Q := 1 # 2.
Definition cos345 (angle : Q) : Q := 3 # 5.
Definition sin345 (angle : Q) : Q := 4 # 5.

(** The segment [update] stores for a row. *)
Definition segment_of (row : needle Q) : Accumulator.segment :=
  ((x1 row, y1 row), (x2 row, y2 row)).

(** The line at ordinate [y] meets the needle [row]. *)
Definition on_needle (row : needle Q) (y : Q) : Prop :=
  Qmin (y1 row) (y2 row) <= y /\ y <= Qmax (y1 row) (y2 row).

(** A random source gives unit variates. *)
Definition unit_variates (rnd : nat -> nat -> Q) : Prop :=
  forall i j, 0 <= rnd i j /\ rnd i j < 1.

(** The entries of a list of integers increase strictly. *)
Fixpoint increasing (l : list Z) : Prop :=
  match l with
  | [] => True
  | n :: rest => Forall (fun m => (n < m)%Z) rest /\ increasing rest
  end.

(* ------------------------------------------------------------------ *)
(** * Properties *)

(** ** The result monad and the float operations *)

Lemma for_each_Forall2 (A B : Type) (f : A -> result B) (P : A -> B -> Prop)
  (xs : list A) :
  (forall x, In x xs -> exists b, f x = Ok b /\ P x b) ->
  exists bs, for_each f xs = Ok bs /\ Forall2 P xs bs.
Proof.
  induction xs as [|x rest IH]; intros Hall.
  - exists []. split; [reflexivity | constructor].
  - destruct (Hall x (or_introl eq_refl)) as [b [Hb HP]].
    destruct IH as [bs [Hbs HF]].
    { intros z Hz. apply Hall. now right. }
    exists (b :: bs). simpl. rewrite Hb. simpl. rewrite Hbs. simpl.
    split; [reflexivity | now constructor].
Qed.

Lemma for_each_length (A B : Type) (f : A -> result B) (xs : list A)
  (bs : list B) :
  for_each f xs = Ok bs -> length bs = length xs.
Proof.
  revert bs. induction xs as [|x rest IH]; simpl; intros bs H.
  - now inversion H.
  - destruct (f x); simpl in H; try discriminate.
    destruct (for_each f rest) as [bs'| |]; simpl in H; try discriminate.
    inversion H; subst. simpl. f_equal. now apply IH.
Qed.

Lemma Qle_bool_false (a b : Q) : Qle_bool a b = false <-> b < a.
Proof.
  split; intros H.
  - apply Qnot_le_lt. intros Hle. apply Qle_bool_iff in Hle. congruence.
  - destruct (Qle_bool a b) eqn:E; [|reflexivity].
    apply Qle_bool_iff in E. exfalso. apply (Qlt_not_le _ _ H E).
Qed.

Lemma between_true (a b c : Q) : between a b c = true <-> a <= b /\ b <= c.
Proof.
  unfold between. rewrite andb_true_iff, !Qle_bool_iff. tauto.
Qed.

Lemma fdiv_pos (a b : Q) : 0 < b -> fdiv a b = Ok (a / b).
Proof.
  intros Hb. unfold fdiv.
  destruct (Qeq_bool b 0) eqn:E; [|reflexivity].
  apply Qeq_bool_iff in E. rewrite E in Hb. now apply Qlt_irrefl in Hb.
Qed.

Lemma pymin_Qmin (a b : Q) : pymin a b = Qmin a b.
Proof.
  unfold pymin, Qmin, GenericMinMax.gmin, Qle_bool, Qcompare, Z.leb.
  now destruct (_ ?= _)%Z.
Qed.

Lemma pymax_Qmax (a b : Q) : pymax a b = Qmax a b.
Proof.
  unfold pymax, Qmax, GenericMinMax.gmax, Qle_bool, Qcompare, Z.leb.
  rewrite (Z.compare_antisym (Qnum a * QDen b) (Qnum b * QDen a)).
  now destruct (_ ?= _)%Z.
Qed.

Lemma pymin_le_pymax (a b : Q) : pymin a b <= pymax a b.
Proof.
  unfold pymin, pymax.
  destruct (Qle_bool a b) eqn:E1; destruct (Qle_bool b a) eqn:E2;
    try apply Qle_bool_iff in E1; try apply Qle_bool_iff in E2;
    try apply Qle_bool_false in E1; try apply Qle_bool_false in E2; lra.
Qed.

(** [int] is the floor of a non-negative and the ceiling of a negative
    number. *)
Lemma int_nonneg (q : Q) : 0 <= q -> int q = Qfloor q.
Proof.
  destruct q as [n d]. unfold int, Qfloor, Qle. simpl. intros H.
  apply Z.quot_div_nonneg; lia.
Qed.

Lemma int_neg (q : Q) : q <= 0 -> int q = Qceiling q.
Proof.
  destruct q as [n d]. unfold int, Qceiling, Qfloor, Qle. simpl. intros H.
  rewrite <- (Z.opp_involutive n) at 1.
  rewrite Z.quot_opp_l by lia.
  f_equal. apply Z.quot_div_nonneg; lia.
Qed.

Lemma int_spec (q : Q) :
  (0 <= q /\ inject_Z (int q) <= q /\ q < inject_Z (int q) + 1) \/
  (q < 0 /\ inject_Z (int q) - 1 < q /\ q <= inject_Z (int q)).
Proof.
  destruct (Qlt_le_dec q 0) as [Hneg | Hpos].
  - right. rewrite int_neg by lra.
    pose proof (Qle_ceiling q) as H1. pose proof (Qceiling_lt q) as H2.
    unfold Z.sub in H2. rewrite inject_Z_plus, inject_Z_opp in H2.
    change (inject_Z 1) with 1 in H2. repeat split; lra.
  - left. rewrite int_nonneg by assumption.
    pose proof (Qfloor_le q) as H1. pose proof (Qlt_floor q) as H2.
    rewrite inject_Z_plus in H2. change (inject_Z 1) with 1 in H2.
    repeat split; lra.
Qed.

Example int_truncates :
  int (5 # 2) = 2%Z /\ int (-(1 # 2)) = 0%Z /\ int (-(3 # 2)) = (-1)%Z.
Proof. repeat split. Qed.

(** Two integers less than one apart are in order. *)
Lemma inject_Z_discrete (m n : Z) :
  inject_Z m < inject_Z n + 1 -> (m <= n)%Z.
Proof.
  intros H. change 1 with (inject_Z 1) in H. rewrite <- inject_Z_plus in H.
  rewrite <- Zlt_Qlt in H. lia.
Qed.

Lemma inject_Z_succ (n : Z) : inject_Z (n + 1) == inject_Z n + 1.
Proof. rewrite inject_Z_plus. reflexivity. Qed.

Lemma not_between (a x b : Q) : ~ (a <= x /\ x <= b) -> x < a \/ b < x.
Proof.
  intros H. destruct (Qlt_le_dec x a) as [Hl | Hl]; [now left|].
  destruct (Qlt_le_dec b x) as [Hr | Hr]; [now right|].
  exfalso. apply H. now split.
Qed.

(** What truncation gives on the two ends of an interval [[a, b]]: the
    loop bounds are in order, and when neither [int a] nor its successor is
    in the interval, no integer is, and the two truncations agree. *)
Lemma int_interval (a b : Q) :
  a <= b ->
  (int a <= int b)%Z /\
  (~ (a <= inject_Z (int a) /\ inject_Z (int a) <= b) ->
   ~ (a <= inject_Z (int a) + 1 /\ inject_Z (int a) + 1 <= b) ->
   int b = int a /\ forall k : Z, ~ (a <= inject_Z k /\ inject_Z k <= b)).
Proof.
  intros Hab.
  assert (Hmono : (int a <= int b)%Z).
  { destruct (int_spec a) as [[Ha [Ha1 Ha2]] | [Ha [Ha1 Ha2]]];
      destruct (int_spec b) as [[Hb [Hb1 Hb2]] | [Hb [Hb1 Hb2]]].
    - apply inject_Z_discrete; lra.
    - lra.
    - assert (int a <= 0)%Z by (apply inject_Z_discrete; change (inject_Z 0) with 0; lra).
      assert (0 <= int b)%Z by (apply inject_Z_discrete; change (inject_Z 0) with 0; lra).
      lia.
    - apply inject_Z_discrete; lra. }
  split; [exact Hmono|].
  intros H1 H2. apply not_between in H1. apply not_between in H2.
  destruct (int_spec a) as [[Ha [Ha1 Ha2]] | [Ha [Ha1 Ha2]]].
  - (* 0 <= a: int a < a <= b < int a + 1 *)
    assert (Hlo : inject_Z (int a) < a) by (destruct H1; lra).
    assert (Hhi : b < inject_Z (int a) + 1) by (destruct H2; lra).
    split.
    + destruct (int_spec b) as [[Hb [Hb1 Hb2]] | [Hb [Hb1 Hb2]]]; [|lra].
      assert (int b <= int a)%Z by (apply inject_Z_discrete; lra). lia.
    + intros k [Hk1 Hk2].
      assert (k <= int a)%Z by (apply inject_Z_discrete; lra).
      assert (int a + 1 <= k)%Z
        by (apply inject_Z_discrete; rewrite inject_Z_succ; lra).
      lia.
  - (* a < 0: int a - 1 < a <= b < int a *)
    assert (Hhi : b < inject_Z (int a)) by (destruct H1; lra).
    assert (Hz : (int a <= 0)%Z) by (apply inject_Z_discrete; change (inject_Z 0) with 0; lra).
    assert (Hz' : inject_Z (int a) <= 0)
      by (change 0 with (inject_Z 0); now rewrite <- Zle_Qle).
    split.
    + destruct (int_spec b) as [[Hb [Hb1 Hb2]] | [Hb [Hb1 Hb2]]]; [lra|].
      assert (int b <= int a)%Z by (apply inject_Z_discrete; lra). lia.
    + intros k [Hk1 Hk2].
      assert (int a <= k)%Z by (apply inject_Z_discrete; lra).
      assert (k + 1 <= int a)%Z
        by (apply inject_Z_discrete; rewrite inject_Z_succ; lra).
      lia.
Qed.

(** Positions and quotients: comparing [x * s] with [y] is comparing [x]
    with [y / s] when [s] is positive. *)
Lemma scale_le (s x y : Q) : 0 < s -> (x * s <= y <-> x <= y / s).
Proof.
  intros Hs.
  assert (Hy : y == (y / s) * s) by (field; lra).
  rewrite Hy at 1. now apply Qmult_le_r.
Qed.

Lemma scale_ge (s x y : Q) : 0 < s -> (y <= x * s <-> y / s <= x).
Proof.
  intros Hs.
  assert (Hy : y == (y / s) * s) by (field; lra).
  rewrite Hy at 1. now apply Qmult_le_r.
Qed.

Lemma scale_between (s x lo hi : Q) :
  0 < s ->
  (lo <= x * s /\ x * s <= hi <-> lo / s <= x /\ x <= hi / s).
Proof.
  intros Hs. rewrite (scale_le x hi Hs), (scale_ge x lo Hs). tauto.
Qed.

(** ** The sweep loop *)

Module ClassifierFacts.

Import Classifier.

(** On exact numbers, the loop as the classifier starts it is over within
    three tests of its condition, and finds a line exactly when there is
    one. *)
Lemma sweep_spec (y_min y_max s : Q) :
  0 < s -> y_min <= y_max ->
  exists b : bool,
    (forall fuel, (3 <= fuel)%nat ->
       sweep fuel y_min y_max s
         (inject_Z (int (y_max / s) + 1) * s)
         (inject_Z (int (y_min / s)) * s) = Ok b) /\
    (b = true <->
     exists k : Z, y_min <= inject_Z k * s /\ inject_Z k * s <= y_max).
Proof.
  intros Hs Hy.
  set (a := y_min / s). set (c := y_max / s).
  set (L0 := inject_Z (int a) * s).
  set (above := inject_Z (int c + 1) * s).
  assert (Hac : a <= c).
  { unfold a, c. apply Qmult_le_r with (z := s); [exact Hs|].
    assert (E1 : y_min / s * s == y_min) by (field; lra).
    assert (E2 : y_max / s * s == y_max) by (field; lra).
    now rewrite E1, E2. }
  destruct (int_interval Hac) as [Hmono Hmiss].
  assert (Hab : above == (inject_Z (int c) + 1) * s)
    by (unfold above; now rewrite inject_Z_succ).
  assert (Hmono' : inject_Z (int a) <= inject_Z (int c))
    by now rewrite <- Zle_Qle.
  assert (C0 : Qle_bool L0 above = true).
  { apply Qle_bool_iff. rewrite Hab. unfold L0. apply Qmult_le_r; lra. }
  assert (C1 : Qle_bool (L0 + s) above = true).
  { apply Qle_bool_iff. rewrite Hab.
    assert (E : L0 + s == (inject_Z (int a) + 1) * s) by (unfold L0; ring).
    rewrite E. apply Qmult_le_r; lra. }
  destruct (between y_min L0 y_max) eqn:B0.
  { exists true. split.
    - intros [|fuel] Hf; [lia|]. simpl. fold a c L0 above.
      now rewrite C0, B0.
    - split; [intros _|reflexivity].
      exists (int a). now apply between_true in B0. }
  destruct (between y_min (L0 + s) y_max) eqn:B1.
  { exists true. split.
    - intros [|[|fuel]] Hf; try lia. simpl. fold a c L0 above.
      now rewrite C0, B0, C1, B1.
    - split; [intros _|reflexivity].
      exists (int a + 1)%Z. apply between_true in B1.
      assert (E : inject_Z (int a + 1) * s == L0 + s)
        by (unfold L0; rewrite inject_Z_succ; ring).
      now rewrite E. }
  assert (N0 : ~ (a <= inject_Z (int a) /\ inject_Z (int a) <= c)).
  { intros H. apply (scale_between (inject_Z (int a)) y_min y_max Hs) in H.
    apply between_true in H. fold L0 in H. congruence. }
  assert (N1 : ~ (a <= inject_Z (int a) + 1 /\ inject_Z (int a) + 1 <= c)).
  { intros H.
    apply (scale_between (inject_Z (int a) + 1) y_min y_max Hs) in H.
    assert (E : (inject_Z (int a) + 1) * s == L0 + s) by (unfold L0; ring).
    rewrite E in H. apply between_true in H. congruence. }
  destruct (Hmiss N0 N1) as [Heq Hnone].
  assert (C2 : Qle_bool (L0 + s + s) above = false).
  { apply Qle_bool_false. rewrite Hab, Heq.
    assert (E : L0 + s + s == (inject_Z (int a) + 1) * s + s)
      by (unfold L0; ring).
    rewrite E. lra. }
  exists false. split.
  - intros [|[|[|fuel]]] Hf; try lia. simpl. fold a c L0 above.
    now rewrite C0, B0, C1, B1, C2.
  - split; [discriminate|]. intros [k Hk]. exfalso.
    apply (Hnone k). now apply (scale_between (inject_Z k) y_min y_max Hs).
Qed.

(** The positivity of the spacing matters: with spacing [-1] the loop on
    the needle (0,0.5)-(0,2.5) starts at 0 below [line_above = 1] and walks
    away from it, for ever. *)
Lemma sweep_negative_spacing_diverges (fuel : nat) :
  check_intersection fuel (Needle 0 (1 # 2) 0 (5 # 2)) (-1) = OutOfFuel.
Proof.
  assert (H : forall n line_y, line_y <= 0 ->
            sweep n (1 # 2) (5 # 2) (-1) 1 line_y = OutOfFuel).
  { induction n as [|n IH]; intros line_y Hle; simpl; [reflexivity|].
    assert (C : Qle_bool line_y 1 = true) by (apply Qle_bool_iff; lra).
    assert (B : between (1 # 2) line_y (5 # 2) = false).
    { destruct (between (1 # 2) line_y (5 # 2)) eqn:E; [|reflexivity].
      apply between_true in E. lra. }
    rewrite C, B. apply IH. lra. }
  unfold check_intersection.
  change (pymin _ _) with (1 # 2). change (pymax _ _) with (5 # 2).
  change (fdiv (1 # 2) (-1)) with (Ok ((1 # 2) / -1)).
  change (fdiv (5 # 2) (-1)) with (Ok ((5 # 2) / -1)).
  cbn [bind].
  change (int ((1 # 2) / -1)) with 0%Z.
  change (int ((5 # 2) / -1) + 1)%Z with (-1)%Z.
  change (inject_Z (-1) * -1) with 1.
  apply H. vm_compute. discriminate.
Qed.

(** One row, on exact numbers: the classifier returns, with three units
    of fuel, whether the needle crosses a line. *)
Lemma check_intersection_spec (row : needle Q) (s : Q) :
  0 < s ->
  exists b : bool,
    (forall fuel, (3 <= fuel)%nat ->
       check_intersection fuel row s = Ok b) /\
    (b = true <-> crosses row s).
Proof.
  intros Hs.
  destruct (sweep_spec Hs (pymin_le_pymax (y1 row) (y2 row)))
    as [b [Hrun Hb]].
  exists b. split.
  - intros fuel Hf. unfold check_intersection.
    rewrite !fdiv_pos by exact Hs. cbn beta iota zeta delta [bind].
    exact (Hrun fuel Hf).
  - unfold crosses. rewrite <- pymin_Qmin, <- pymax_Qmax. exact Hb.
Qed.

(** The classifier reads the ordinates of a row only. *)
Lemma check_intersection_ordinates (fuel : nat) (r1 r2 : needle Q) (s : Q) :
  y1 r1 = y1 r2 -> y2 r1 = y2 r2 ->
  check_intersection fuel r1 s = check_intersection fuel r2 s.
Proof.
  intros E1 E2. unfold check_intersection. now rewrite E1, E2.
Qed.

End ClassifierFacts.

(* ------------------------------------------------------------------ *)
(** ** The classifier: what it decides *)

Module ClassifierSpec.

Import Classifier ClassifierFacts.

(** C5.  Two batches with the same ordinates, whatever their abscissas,
    are classified alike: same booleans, same failure, same divergence. *)
Theorem classification_ignores_abscissas (fuel : nat)
  (positions positions' : list (needle Q)) (spacing : Q) :
  ordinates positions = ordinates positions' ->
  check_intersections_batch fuel positions spacing =
  check_intersections_batch fuel positions' spacing.
Proof.
  unfold check_intersections_batch, ordinates.
  revert positions'.
  induction positions as [|r rest IH]; intros [|r' rest'] H;
    simpl in H; try discriminate; [reflexivity|].
  injection H as Hy1 Hy2 Hrest. simpl.
  rewrite (check_intersection_ordinates fuel r r' spacing Hy1 Hy2).
  now rewrite (IH rest' Hrest).
Qed.

Lemma classification_ignores_abscissas_witness :
  ordinates [Needle 0 (2 # 10) 5 (13 # 10)] =
  ordinates [Needle 7 (2 # 10) (-3) (13 # 10)] /\
  check_intersections_batch 3 [Needle 0 (2 # 10) 5 (13 # 10)] 1 =
  check_intersections_batch 3 [Needle 7 (2 # 10) (-3) (13 # 10)] 1.
Proof.
  split; [reflexivity|].
  apply classification_ignores_abscissas. reflexivity.
Defined.

End ClassifierSpec.

(* ------------------------------------------------------------------ *)
(** ** The sampler: the geometry of a batch *)

Module SamplerSpec.

Open Scope R_scope.

#[local] Existing Instance ROps.

Lemma uniform_range (lo hi u : R) :
  lo <= hi -> 0 <= u < 1 -> lo <= uniform (ops := ROps) lo hi u <= hi.
Proof.
  intros Hlh Hu. unfold uniform. simpl. nra.
Qed.

Lemma angle_range (u : R) :
  0 <= u < 1 ->
  0 <= uniform (ops := ROps) (fint 0) (fmul (fint 2) fpi) u < 2 * PI.
Proof.
  intros Hu. unfold uniform. simpl. pose proof PI_RGT_0. nra.
Qed.

Lemma needle_length_polar (x y L theta : R) :
  0 <= L ->
  needle_length (Needle x y (x + L * cos theta) (y + L * sin theta)) = L.
Proof.
  intros HL. unfold needle_length. simpl.
  replace (x + L * cos theta - x) with (L * cos theta) by ring.
  replace (y + L * sin theta - y) with (L * sin theta) by ring.
  rewrite !Rsqr_mult, <- Rmult_plus_distr_l, Rplus_comm, sin2_cos2, Rmult_1_r.
  now apply sqrt_Rsqr.
Qed.

(** C7.  For [n >= 0] the sampler returns exactly [n] needles, none when
    [n = 0], without failure.  With unit variates in [[0, 1)] and ordered
    bounds, every needle has its first endpoint in the field
    [[x_min, x_max] x [y_min, y_max]], its second endpoint at
    [(x + L cos t, y + L sin t)] for an angle [t] in [[0, 2 pi)], and
    Euclidean length [L]. *)
Theorem generate_needles_batch_geometry (rnd : nat -> nat -> R) (n : Z)
  (L x_min x_max y_min y_max : R) :
  (0 <= n)%Z ->
  (forall i j, 0 <= rnd i j < 1) ->
  x_min <= x_max -> y_min <= y_max -> 0 <= L ->
  exists positions,
    generate_needles_batch (ops := ROps) rnd n L x_min x_max y_min y_max
      = Ok positions /\
    length positions = Z.to_nat n /\
    (n = 0%Z -> positions = []) /\
    Forall (fun s =>
              x_min <= x1 s <= x_max /\
              y_min <= y1 s <= y_max /\
              (exists theta, 0 <= theta < 2 * PI /\
                 x2 s = x1 s + L * cos theta /\
                 y2 s = y1 s + L * sin theta) /\
              needle_length s = L) positions.
Proof.
  intros Hn Hrnd Hx Hy HL. unfold generate_needles_batch.
  destruct (n <? 0)%Z eqn:E; [apply Z.ltb_lt in E; lia|].
  eexists. split; [reflexivity|]. split; [|split].
  - now rewrite length_map, length_seq.
  - intros ->. reflexivity.
  - apply Forall_forall. intros s Hs. apply in_map_iff in Hs.
    destruct Hs as [i [<- _]]. unfold generate_needle.
    cbn [x1 y1 x2 y2].
    split; [apply uniform_range; auto|].
    split; [apply uniform_range; auto|].
    split.
    + eexists. split; [apply (angle_range (Hrnd i 2%nat))|].
      split; reflexivity.
    + apply (needle_length_polar _ _ _ HL).
Qed.

Lemma generate_needles_batch_geometry_witness :
  (0 <= 2)%Z /\ 0 <= 10 /\ 0 <= 1 /\
  exists positions,
    generate_needles_batch (ops := ROps) (fun _ _ => 0) 2 1 0 10 0 10
      = Ok positions /\
    length positions = Z.to_nat 2 /\
    (2%Z = 0%Z -> positions = []) /\
    Forall (fun s =>
              0 <= x1 s <= 10 /\
              0 <= y1 s <= 10 /\
              (exists theta, 0 <= theta < 2 * PI /\
                 x2 s = x1 s + 1 * cos theta /\
                 y2 s = y1 s + 1 * sin theta) /\
              needle_length s = 1) positions.
Proof.
  split; [lia|]. split; [lra|]. split; [lra|].
  apply (@generate_needles_batch_geometry (fun _ _ => 0) 2 1 0 10 0 10);
    [lia | intros; lra | lra | lra | lra].
Defined.

End SamplerSpec.

(* ------------------------------------------------------------------ *)
(** ** The accumulator *)

Module AccumulatorFacts.

Import Classifier ClassifierFacts Accumulator.

Lemma count_true_cons (b : bool) (bs : list bool) :
  count_true (b :: bs) = ((if b then 1 else 0) + count_true bs)%Z.
Proof.
  unfold count_true. destruct b; cbn [filter length];
    rewrite ?Nat2Z.inj_succ; lia.
Qed.

Lemma count_true_bounds (bs : list bool) :
  (0 <= count_true bs <= Z.of_nat (length bs))%Z.
Proof.
  induction bs as [|b bs IH]; [unfold count_true; simpl; lia|].
  rewrite count_true_cons. simpl length. destruct b; lia.
Qed.

Lemma add_needle_push (ps : list (needle Q)) (bs : list bool) (st : state)
  (i : nat) (row : needle Q) (hit : bool) :
  nth_error ps i = Some row -> nth_error bs i = Some hit ->
  add_needle ps bs st i = Ok (push st (row, hit)).
Proof.
  intros Hr Hh. unfold add_needle, index. rewrite Hr, Hh. simpl.
  now destruct hit.
Qed.

(** The [for] loop over [range(n)] accounts for the rows in order. *)
Lemma separate_combine (ps : list (needle Q)) :
  forall (bs : list bool) (pre_ps : list (needle Q)) (pre_bs : list bool)
         (st : state),
    length ps = length bs -> length pre_ps = length pre_bs ->
    separate (pre_ps ++ ps) (pre_bs ++ bs)
             (seq (length pre_ps) (length ps)) st
    = Ok (fold_left push (combine ps bs) st).
Proof.
  induction ps as [|row ps IH]; intros [|hit bs] pre_ps pre_bs st Hl Hp;
    simpl in Hl; try discriminate; [reflexivity|].
  simpl.
  rewrite (@add_needle_push _ _ st (length pre_ps) row hit).
  - simpl.
    replace (pre_ps ++ row :: ps) with ((pre_ps ++ [row]) ++ ps)
      by (now rewrite <- app_assoc).
    replace (pre_bs ++ hit :: bs) with ((pre_bs ++ [hit]) ++ bs)
      by (now rewrite <- app_assoc).
    replace (S (length pre_ps)) with (length (pre_ps ++ [row]))
      by (rewrite length_app; simpl; lia).
    apply IH; [lia|]. rewrite !length_app. simpl. lia.
  - rewrite nth_error_app2 by lia. now rewrite Nat.sub_diag.
  - rewrite Hp. rewrite nth_error_app2 by lia. now rewrite Nat.sub_diag.
Qed.

Lemma fold_push_totals (l : list (needle Q * bool)) :
  forall st : state,
    n_total (fold_left push l st) = (n_total st + Z.of_nat (length l))%Z /\
    n_intersections (fold_left push l st)
      = (n_intersections st + count_true (map snd l))%Z /\
    history_n (fold_left push l st) = history_n st /\
    history_ratio (fold_left push l st) = history_ratio st /\
    pi_text (fold_left push l st) = pi_text st.
Proof.
  induction l as [|[row hit] l IH]; intros st.
  - unfold count_true. simpl. repeat split; lia.
  - cbn [fold_left]. destruct (IH (push st (row, hit))) as (H1 & H2 & H3 & H4 & H5).
    rewrite H1, H2, H3, H4, H5. cbn [map snd]. rewrite count_true_cons.
    simpl length. rewrite Nat2Z.inj_succ.
    destruct hit; cbn [push n_total n_intersections history_n history_ratio
                       pi_text]; repeat split; lia.
Qed.

Lemma map_snd_combine (A B : Type) (xs : list A) :
  forall ys : list B, length xs = length ys -> map snd (combine xs ys) = ys.
Proof.
  induction xs as [|x xs IH]; intros [|y ys] H; simpl in *;
    try discriminate; [reflexivity|].
  f_equal. apply IH. lia.
Qed.

Lemma inject_Z_pos_neq (n : Z) : (0 < n)%Z -> Qeq_bool (inject_Z n) 0 = false.
Proof.
  intros Hn. destruct (Qeq_bool (inject_Z n) 0) eqn:E; [|reflexivity].
  apply Qeq_bool_iff in E. unfold Qeq in E. simpl in E. lia.
Qed.

(** What [report] does to a state when it returns. *)
Lemma report_inv (cfg : config) (frame : Z) (st st' : state) :
  report cfg frame st = Ok st' ->
  n_total st' = n_total st /\
  n_intersections st' = n_intersections st /\
  ((n_total st <= 0)%Z /\ st' = st \/
   (0 < n_total st)%Z /\ pi_text st' = Some (guarded_estimate cfg st)).
Proof.
  unfold report, guarded_estimate, p_hat.
  destruct (0 <? n_total st)%Z eqn:E.
  - apply Z.ltb_lt in E. unfold fdiv at 1 3.
    rewrite (inject_Z_pos_neq E). cbn [bind].
    destruct (Qle_bool _ (1 # 100)).
    + cbn [bind]. intros H; inversion H; subst. cbn. auto.
    + unfold fdiv. destruct (Qeq_bool _ 0); cbn [bind]; [discriminate|].
      intros H; inversion H; subst. cbn. auto.
  - apply Z.ltb_ge in E. intros H; inversion H; subst. auto.
Qed.

Lemma report_ok (cfg : config) (frame : Z) (st : state) :
  0 < LINE_SPACING cfg -> exists st', report cfg frame st = Ok st'.
Proof.
  intros HD. unfold report.
  destruct (0 <? n_total st)%Z eqn:E; [|now eexists].
  apply Z.ltb_lt in E. unfold fdiv at 1 3.
  rewrite (inject_Z_pos_neq E). cbn [bind].
  destruct (Qle_bool _ (1 # 100)) eqn:C; cbn [bind]; [now eexists|].
  apply Qle_bool_false in C. unfold fdiv.
  destruct (Qeq_bool _ 0) eqn:Z0; cbn [bind]; [|now eexists].
  apply Qeq_bool_iff in Z0. exfalso. nra.
Qed.

Lemma report_zero (cfg : config) (frame : Z) (st : state) :
  n_total st = 0%Z -> report cfg frame st = Ok st.
Proof.
  intros H. unfold report. now rewrite H.
Qed.

Section UpdateFacts.

Variables cosf sinf : Q -> Q.

(** What a returning call of [update] has done. *)
Lemma update_inv (cfg : config) (fuel : nat) (st : state) (frame : Z)
  (rnd : nat -> nat -> Q) (st' : state) :
  update cosf sinf cfg fuel st frame rnd = Ok st' ->
  ((MAX_NEEDLES cfg <= n_total st)%Z /\ st' = st) \/
  ((n_total st < MAX_NEEDLES cfg)%Z /\ (0 <= n_to_add cfg st)%Z /\
   exists positions intersects,
     generate_needles_batch (ops := QOps cosf sinf) rnd (n_to_add cfg st)
       (NEEDLE_LENGTH cfg) 0 10 0 10 = Ok positions /\
     check_intersections_batch fuel positions (LINE_SPACING cfg)
       = Ok intersects /\
     length positions = Z.to_nat (n_to_add cfg st) /\
     length intersects = length positions /\
     report cfg frame (fold_left push (combine positions intersects) st)
       = Ok st').
Proof.
  unfold update.
  destruct (MAX_NEEDLES cfg <=? n_total st)%Z eqn:G.
  - apply Z.leb_le in G. intros H; inversion H; subst. now left.
  - apply Z.leb_gt in G. right. split; [exact G|].
    revert H. unfold generate_needles_batch.
    destruct (n_to_add cfg st <? 0)%Z eqn:N; [discriminate|].
    apply Z.ltb_ge in N. split; [exact N|].
    cbn [bind] in H.
    set (positions := map _ (seq 0 (Z.to_nat (n_to_add cfg st)))) in *.
    assert (Hlen : length positions = Z.to_nat (n_to_add cfg st))
      by (unfold positions; now rewrite length_map, length_seq).
    destruct (check_intersections_batch fuel positions (LINE_SPACING cfg))
      as [intersects| |] eqn:C; try discriminate.
    cbn [bind] in H.
    pose proof (for_each_length _ _ C) as Hlen'.
    rewrite <- Hlen in H.
    pose proof (@separate_combine positions intersects [] [] st
                  (eq_sym Hlen') eq_refl) as S.
    cbn [app length] in S. rewrite S in H. cbn [bind] in H.
    exists positions, intersects. auto.
Qed.

(** With a positive spacing and a non-negative batch size, [update]
    returns. *)
Lemma update_ok (cfg : config) (fuel : nat) (st : state) (frame : Z)
  (rnd : nat -> nat -> Q) :
  0 < LINE_SPACING cfg -> (0 <= N_NEEDLES_PER_FRAME cfg)%Z ->
  (3 <= fuel)%nat ->
  exists st', update cosf sinf cfg fuel st frame rnd = Ok st'.
Proof.
  intros HD HN Hf. unfold update.
  destruct (MAX_NEEDLES cfg <=? n_total st)%Z eqn:G; [now eexists|].
  apply Z.leb_gt in G. unfold generate_needles_batch.
  assert (N : (0 <= n_to_add cfg st)%Z) by (unfold n_to_add; lia).
  destruct (n_to_add cfg st <? 0)%Z eqn:E; [apply Z.ltb_lt in E; lia|].
  cbn [bind].
  set (positions := map _ (seq 0 (Z.to_nat (n_to_add cfg st)))).
  assert (Hlen : length positions = Z.to_nat (n_to_add cfg st))
    by (unfold positions; now rewrite length_map, length_seq).
  destruct (for_each_Forall2
              (fun row => check_intersection fuel row (LINE_SPACING cfg))
              (fun _ _ => True) positions) as [bs [Hbs _]].
  { intros row _.
    destruct (check_intersection_spec row HD) as [b [Hrun _]].
    exists b. split; [apply (Hrun fuel Hf) | exact I]. }
  unfold check_intersections_batch. rewrite Hbs. cbn [bind].
  pose proof (for_each_length _ _ Hbs) as Hlen'.
  rewrite <- Hlen.
  pose proof (@separate_combine positions bs [] [] st
                (eq_sym Hlen') eq_refl) as S.
  cbn [app length] in S. rewrite S. cbn [bind].
  now apply report_ok.
Qed.

(** A property every returning [update] keeps is kept by [run]. *)
Lemma run_invariant (P : state -> Prop) (cfg : config) (fuel : nat) :
  (forall st frame rnd st',
     P st -> update cosf sinf cfg fuel st frame rnd = Ok st' -> P st') ->
  forall frames st st',
    P st -> run cosf sinf cfg fuel st frames = Ok st' -> P st'.
Proof.
  intros Hstep. induction frames as [|[frame rnd] frames IH];
    intros st st' HP Hrun; simpl in Hrun.
  - now inversion Hrun; subst.
  - destruct (update cosf sinf cfg fuel st frame rnd) as [st1| |] eqn:U;
      simpl in Hrun; try discriminate.
    eapply IH; [|exact Hrun]. eapply Hstep; eassumption.
Qed.

Lemma run_ok (cfg : config) (fuel : nat) :
  0 < LINE_SPACING cfg -> (0 <= N_NEEDLES_PER_FRAME cfg)%Z ->
  (3 <= fuel)%nat ->
  forall frames st, exists st', run cosf sinf cfg fuel st frames = Ok st'.
Proof.
  intros HD HN Hf. induction frames as [|[frame rnd] frames IH]; intros st.
  - now eexists.
  - simpl. destruct (update_ok cfg st frame rnd HD HN Hf) as [st1 U].
    rewrite U. simpl. apply IH.
Qed.

(** The totals after a returning [update], from the totals before. *)
Lemma update_totals (cfg : config) (fuel : nat) (st : state) (frame : Z)
  (rnd : nat -> nat -> Q) (st' : state) :
  update cosf sinf cfg fuel st frame rnd = Ok st' ->
  ((MAX_NEEDLES cfg <= n_total st)%Z /\ st' = st) \/
  ((n_total st < MAX_NEEDLES cfg)%Z /\ (0 <= n_to_add cfg st)%Z /\
   exists positions intersects,
     generate_needles_batch (ops := QOps cosf sinf) rnd (n_to_add cfg st)
       (NEEDLE_LENGTH cfg) 0 10 0 10 = Ok positions /\
     check_intersections_batch fuel positions (LINE_SPACING cfg)
       = Ok intersects /\
     Z.of_nat (length positions) = n_to_add cfg st /\
     length intersects = length positions /\
     n_total st' = (n_total st + Z.of_nat (length positions))%Z /\
     n_intersections st'
       = (n_intersections st + count_true intersects)%Z).
Proof.
  intros U. destruct (update_inv _ _ _ _ _ U)
    as [[G E] | [G [N [ps [bs (Hg & Hc & Hl & Hl' & Hr)]]]]].
  - now left.
  - right. split; [exact G|]. split; [exact N|].
    exists ps, bs. repeat split; try assumption.
    + rewrite Hl. now apply Z2Nat.id.
    + destruct (report_inv _ _ _ Hr) as [R1 _]. rewrite R1.
      destruct (fold_push_totals (combine ps bs) st) as [F1 _].
      rewrite F1, length_combine, Hl', Nat.min_id. reflexivity.
    + destruct (report_inv _ _ _ Hr) as [_ [R2 _]]. rewrite R2.
      destruct (fold_push_totals (combine ps bs) st) as [_ [F2 _]].
      rewrite F2, map_snd_combine by (now symmetry). reflexivity.
Qed.

Lemma update_keeps_totals_ordered (cfg : config) (fuel : nat) (st : state)
  (frame : Z) (rnd : nat -> nat -> Q) (st' : state) :
  (0 <= n_intersections st <= n_total st)%Z ->
  update cosf sinf cfg fuel st frame rnd = Ok st' ->
  (0 <= n_intersections st' <= n_total st')%Z.
Proof.
  intros Hinv U. destruct (update_totals _ _ _ _ _ U)
    as [[G E] | [G [N [ps [bs (Hg & Hc & Hl & Hl' & Ht & Hi)]]]]].
  - now subst.
  - pose proof (count_true_bounds bs). rewrite Hl' in *. lia.
Qed.

End UpdateFacts.

End AccumulatorFacts.

(* ------------------------------------------------------------------ *)
(** ** The accumulator: totals, estimate, saturation, parameters *)

Module AccumulatorSpec.

Import Classifier Accumulator AccumulatorFacts.

(** C3.  In every state the animation reaches from the initial one, and
    after every further batch update, [0 <= n_intersections <= n_total];
    neither total decreases; and an update that is applied adds the size
    of its batch to [n_total] and the number of [True] classifications of
    the batch to [n_intersections]. *)
Theorem totals_invariant (cosf sinf : Q -> Q) (cfg : config) (fuel : nat)
  (frames : list (Z * (nat -> nat -> Q))) (st : state) (frame : Z)
  (rnd : nat -> nat -> Q) (st' : state) :
  run cosf sinf cfg fuel init_state frames = Ok st ->
  update cosf sinf cfg fuel st frame rnd = Ok st' ->
  (0 <= n_intersections st <= n_total st)%Z /\
  (0 <= n_intersections st' <= n_total st')%Z /\
  (n_total st <= n_total st')%Z /\
  (n_intersections st <= n_intersections st')%Z /\
  (((MAX_NEEDLES cfg <= n_total st)%Z /\ st' = st) \/
   ((n_total st < MAX_NEEDLES cfg)%Z /\
    exists positions intersects,
      generate_needles_batch (ops := QOps cosf sinf) rnd (n_to_add cfg st)
        (NEEDLE_LENGTH cfg) 0 10 0 10 = Ok positions /\
      check_intersections_batch fuel positions (LINE_SPACING cfg)
        = Ok intersects /\
      Z.of_nat (length positions) = n_to_add cfg st /\
      n_total st' = (n_total st + Z.of_nat (length positions))%Z /\
      n_intersections st'
        = (n_intersections st + count_true intersects)%Z)).
Proof.
  intros Hrun U.
  assert (Hst : (0 <= n_intersections st <= n_total st)%Z).
  { apply (@run_invariant cosf sinf
             (fun s => (0 <= n_intersections s <= n_total s)%Z) cfg fuel)
      with (frames := frames) (st := init_state).
    - intros s f r s' Hs Hu. eapply update_keeps_totals_ordered; eassumption.
    - simpl. lia.
    - exact Hrun. }
  split; [exact Hst|].
  split; [eapply update_keeps_totals_ordered; eassumption|].
  destruct (@update_totals cosf sinf _ _ _ _ _ _ U)
    as [[G E] | [G [N [ps [bs (Hg & Hc & Hl & Hl' & Ht & Hi)]]]]].
  - subst st'. split; [lia|]. split; [lia|]. now left.
  - pose proof (count_true_bounds bs).
    split; [lia|]. split; [lia|]. right. split; [exact G|].
    exists ps, bs. auto.
Qed.

Lemma totals_invariant_witness :
  exists st',
    update cos345 sin345 default_config 3 init_state 0 half_draws = Ok st' /\
    (0 <= n_intersections st' <= n_total st')%Z /\ n_total st' = 10%Z.
Proof.
  destruct (update cos345 sin345 default_config 3 init_state 0 half_draws)
    as [st'| |] eqn:U; try (vm_compute in U; discriminate).
  exists st'. split; [reflexivity|].
  destruct (@totals_invariant cos345 sin345 default_config 3 [] init_state
              0 half_draws st' eq_refl U) as (_ & H & _).
  split; [exact H|].
  vm_compute in U. injection U as <-. reflexivity.
Defined.

Lemma update_keeps_estimate_shown (cosf sinf : Q -> Q) (cfg : config)
  (fuel : nat) (st : state) (frame : Z) (rnd : nat -> nat -> Q)
  (st' : state) :
  estimate_shown cfg st ->
  update cosf sinf cfg fuel st frame rnd = Ok st' ->
  estimate_shown cfg st'.
Proof.
  intros (H0 & Hz & Hp) U.
  destruct (@update_inv cosf sinf _ _ _ _ _ _ U)
    as [[G E] | [G [N [ps [bs (Hg & Hc & Hl & Hl' & Hr)]]]]].
  - subst st'. repeat split; assumption.
  - destruct (fold_push_totals (combine ps bs) st) as (F1 & F2 & _).
    destruct (@report_inv _ _ _ _ Hr) as (R1 & R2 & [[Hle E] | [Hlt E]]).
    + subst st'. rewrite F1 in Hle.
      assert (Hnil : combine ps bs = [])
        by (destruct (combine ps bs); [reflexivity | simpl in Hle; lia]).
      rewrite Hnil. simpl. repeat split; assumption.
    + unfold estimate_shown. rewrite R1. split; [lia|].
      split; [lia|]. intros _. rewrite E.
      unfold guarded_estimate, p_hat. now rewrite R1, R2.
Qed.

(** C4.  In every state the animation reaches: with [n_total = 0] no
    estimate is shown and the reporting step divides nothing (it returns the
    state as it is, where a division by [n_total] would raise); with
    [n_total > 0] and a ratio of at most a hundredth the marker ['N/A'] is
    shown; with a larger ratio the estimate [2 L / (p D)] is shown. *)
Theorem pi_estimate_guarded (cosf sinf : Q -> Q) (cfg : config)
  (fuel : nat) (frames : list (Z * (nat -> nat -> Q))) (st : state) :
  run cosf sinf cfg fuel init_state frames = Ok st ->
  (n_total st = 0%Z ->
   pi_text st = None /\ forall frame, report cfg frame st = Ok st) /\
  ((0 < n_total st)%Z ->
   (p_hat st <= 1 # 100 -> pi_text st = Some NA) /\
   (1 # 100 < p_hat st ->
    pi_text st = Some (Estimate (2 * NEEDLE_LENGTH cfg /
                                 (p_hat st * LINE_SPACING cfg))))) /\
  (0 <= n_total st)%Z.
Proof.
  intros Hrun.
  assert (H : estimate_shown cfg st).
  { apply (@run_invariant cosf sinf (estimate_shown cfg) cfg fuel)
      with (frames := frames) (st := init_state).
    - intros s f r s'. apply update_keeps_estimate_shown.
    - unfold estimate_shown. simpl. repeat split; [lia | lia].
    - exact Hrun. }
  destruct H as (H0 & Hz & Hp). split; [|split; [|exact H0]].
  - intros E. split; [now apply Hz|]. intros frame. now apply report_zero.
  - intros Hpos. rewrite (Hp Hpos). unfold guarded_estimate. split.
    + intros Hle. apply Qle_bool_iff in Hle. now rewrite Hle.
    + intros Hlt. apply Qle_bool_false in Hlt. now rewrite Hlt.
Qed.

Lemma pi_estimate_guarded_witness :
  exists st,
    run cos345 sin345 default_config 3 init_state [(0%Z, half_draws)]
      = Ok st /\
    n_total st = 10%Z /\ p_hat st == 1 /\
    pi_text st = Some (Estimate (2 * 1 / (p_hat st * 1))).
Proof.
  destruct (run cos345 sin345 default_config 3 init_state
              [(0%Z, half_draws)]) as [st| |] eqn:R;
    try (vm_compute in R; discriminate).
  exists st. split; [reflexivity|].
  pose proof (@pi_estimate_guarded cos345 sin345 default_config 3
                [(0%Z, half_draws)] st R) as (_ & H & _).
  assert (E : n_total st = 10%Z /\ n_intersections st = 10%Z).
  { vm_compute in R. injection R as <-. split; reflexivity. }
  destruct E as [E1 E2].
  assert (P : p_hat st == 1) by (unfold p_hat; rewrite E1, E2; reflexivity).
  split; [exact E1|]. split; [exact P|].
  apply H; [lia|]. rewrite P. reflexivity.
Defined.

(** The marker: ten horizontal needles at ordinate 2.5 miss every line,
    the ratio is 0 and the text is ['N/A']. *)
Example pi_text_not_available :
  exists st,
    update (fun _ => 1) (fun _ => 0) default_config 3 init_state 0
           (fun _ _ => 1 # 4) = Ok st /\
    n_total st = 10%Z /\ n_intersections st = 0%Z /\
    pi_text st = Some NA.
Proof.
  eexists. split; [vm_compute; reflexivity|]. repeat split.
Qed.

(** C9.  Once [n_total] has reached [MAX_NEEDLES], [update] returns the
    state it was given, unchanged in every component; an update applied
    below the bound adds [min(N_NEEDLES_PER_FRAME, MAX_NEEDLES - n_total)]
    needles, so that [n_total] stays within [MAX_NEEDLES]; hence no state
    the animation reaches has more than [MAX_NEEDLES] needles. *)
Theorem update_saturated (cosf sinf : Q -> Q) (cfg : config) (fuel : nat)
  (st : state) (frame : Z) (rnd : nat -> nat -> Q) :
  ((MAX_NEEDLES cfg <= n_total st)%Z ->
   update cosf sinf cfg fuel st frame rnd = Ok st) /\
  (forall st',
     (n_total st < MAX_NEEDLES cfg)%Z ->
     update cosf sinf cfg fuel st frame rnd = Ok st' ->
     n_total st'
       = (n_total st
          + Z.min (N_NEEDLES_PER_FRAME cfg) (MAX_NEEDLES cfg - n_total st))%Z
     /\ (n_total st' <= MAX_NEEDLES cfg)%Z) /\
  ((0 <= MAX_NEEDLES cfg)%Z ->
   forall frames st',
     run cosf sinf cfg fuel init_state frames = Ok st' ->
     (n_total st' <= MAX_NEEDLES cfg)%Z).
Proof.
  assert (Hstep : forall s f r s',
             (n_total s <= MAX_NEEDLES cfg)%Z ->
             update cosf sinf cfg fuel s f r = Ok s' ->
             (n_total s' <= MAX_NEEDLES cfg)%Z).
  { intros s f r s' Hle U.
    destruct (@update_totals cosf sinf _ _ _ _ _ _ U)
      as [[G E] | [G [N [ps [bs (Hg & Hc & Hl & Hl' & Ht & Hi)]]]]].
    - now subst.
    - rewrite Ht, Hl. unfold n_to_add. lia. }
  split; [|split].
  - intros G. unfold update. apply Z.leb_le in G. now rewrite G.
  - intros st' G U.
    destruct (@update_totals cosf sinf _ _ _ _ _ _ U)
      as [[G' E] | [_ [N [ps [bs (Hg & Hc & Hl & Hl' & Ht & Hi)]]]]];
      [lia|].
    rewrite Ht, Hl. unfold n_to_add. split; lia.
  - intros HM frames st' Hrun.
    apply (@run_invariant cosf sinf
             (fun s => (n_total s <= MAX_NEEDLES cfg)%Z) cfg fuel)
      with (frames := frames) (st := init_state);
      [exact Hstep | exact HM | exact Hrun].
Qed.

Lemma update_saturated_witness :
  (MAX_NEEDLES (Config 1 1 10 10) <= 10)%Z /\
  update cos345 sin345 (Config 1 1 10 10) 0
    (State 7 10 [10%Z] [7 # 10] [] [] (Some NA)) 3 half_draws
  = Ok (State 7 10 [10%Z] [7 # 10] [] [] (Some NA)).
Proof.
  split; [simpl; lia|].
  apply (proj1 (@update_saturated cos345 sin345 (Config 1 1 10 10) 0
                  (State 7 10 [10%Z] [7 # 10] [] [] (Some NA)) 3
                  half_draws)).
  simpl. lia.
Defined.

(** C8, as the specification states it, fails: nothing is validated and
    nothing is rejected.  With [L = -1] a frame adds ten needles, whose
    second endpoints are computed from the negative length; with [D = -1]
    the classifier runs and classifies; a batch size of [0] and a budget
    of [-1] leave the state as it is, without failure. *)
Lemma parameters_not_validated :
  (exists st,
     update cos345 sin345 (Config (-1) 1 10 2000) 3 init_state 0 half_draws
       = Ok st /\ n_total st = 10%Z /\
     hd_error (green_needles st)
       = Some ((10 # 2, 10 # 2),
               ((10 # 2) + -1 * (3 # 5), (10 # 2) + -1 * (4 # 5)))) /\
  (exists st,
     update cos345 sin345 (Config 1 (-1) 10 2000) 3 init_state 0 half_draws
       = Ok st /\ n_total st = 10%Z) /\
  update cos345 sin345 (Config 1 1 0 2000) 3 init_state 0 half_draws
    = Ok init_state /\
  update cos345 sin345 (Config 1 1 10 (-1)) 3 init_state 0 half_draws
    = Ok init_state.
Proof.
  split; [|split; [|split]].
  - eexists. split; [vm_compute; reflexivity|]. split; reflexivity.
  - eexists. split; [vm_compute; reflexivity|]. reflexivity.
  - reflexivity.
  - reflexivity.
Qed.

(** C8, as the code has it.  The parameters are the four module
    constants, which are valid: [L = 1 > 0], [D = 1 > 0], a batch of
    [10 > 0] and a budget of [2000 >= 0].  With them every frame of the
    animation returns, and each applied frame calls the sampler with
    length [1] and the classifier with spacing [1]. *)
Theorem shipped_parameters_valid (cosf sinf : Q -> Q) (fuel : nat)
  (frames : list (Z * (nat -> nat -> Q))) :
  (3 <= fuel)%nat ->
  (0 < NEEDLE_LENGTH default_config /\
   0 < LINE_SPACING default_config /\
   (0 < N_NEEDLES_PER_FRAME default_config)%Z /\
   (0 <= MAX_NEEDLES default_config)%Z) /\
  (exists st,
     run cosf sinf default_config fuel init_state frames = Ok st /\
     forall frame rnd,
       exists st',
         update cosf sinf default_config fuel st frame rnd = Ok st' /\
         ((n_total st < 2000)%Z ->
          exists positions intersects,
            generate_needles_batch (ops := QOps cosf sinf) rnd
              (Z.min 10 (2000 - n_total st)) 1 0 10 0 10 = Ok positions /\
            check_intersections_batch fuel positions 1 = Ok intersects)).
Proof.
  intros Hf. split.
  - simpl. repeat split; try reflexivity; lia.
  - assert (HD : 0 < LINE_SPACING default_config) by reflexivity.
    assert (HN : (0 <= N_NEEDLES_PER_FRAME default_config)%Z)
      by (simpl; lia).
    destruct (@run_ok cosf sinf default_config fuel HD HN Hf frames init_state)
      as [st Hrun].
    exists st. split; [exact Hrun|]. intros frame rnd.
    destruct (@update_ok cosf sinf default_config fuel st frame rnd HD HN Hf)
      as [st' U].
    exists st'. split; [exact U|]. intros Hlt.
    destruct (@update_inv cosf sinf _ _ _ _ _ _ U)
      as [[G E] | [G [N [ps [bs (Hg & Hc & _)]]]]].
    + simpl in G. lia.
    + exists ps, bs. split; [exact Hg | exact Hc].
Qed.

Lemma shipped_parameters_valid_witness :
  (3 <= 3)%nat /\
  exists st,
    run cos345 sin345 default_config 3 init_state [(0%Z, half_draws)]
      = Ok st.
Proof.
  split; [lia|].
  destruct (proj2 (@shipped_parameters_valid cos345 sin345 3
                     [(0%Z, half_draws)] (le_n 3))) as [st [H _]].
  exists st. exact H.
Defined.

End AccumulatorSpec.

(* ------------------------------------------------------------------ *)
(** ** The classifier and the line family *)

Module ClassifierGeometry.

Import Classifier ClassifierFacts.

Lemma on_needle_iff (row : needle Q) (y : Q) :
  on_needle row y <->
  (y1 row <= y /\ y <= y2 row) \/ (y2 row <= y /\ y <= y1 row).
Proof.
  unfold on_needle.
  destruct (Q.min_spec (y1 row) (y2 row)) as [[H1 E1] | [H1 E1]];
    destruct (Q.max_spec (y1 row) (y2 row)) as [[H2 E2] | [H2 E2]];
    rewrite E1, E2; split; intros H; try lra;
    destruct H as [H | H]; lra.
Qed.

Lemma crosses_on_needle (row : needle Q) (s : Q) :
  crosses row s <-> exists k : Z, on_needle row (inject_Z k * s).
Proof. reflexivity. Qed.

(** With a positive spacing and enough fuel, the classifier returns, and
    says whether the needle crosses. *)
Lemma check_intersection_decides (fuel : nat) (row : needle Q) (s : Q) :
  0 < s -> (3 <= fuel)%nat ->
  exists b, check_intersection fuel row s = Ok b /\ (b = true <-> crosses row s).
Proof.
  intros Hs Hf.
  destruct (check_intersection_spec row Hs) as [b [Hrun Hb]].
  exists b. split; [apply (Hrun fuel Hf) | exact Hb].
Qed.

(** Two needles that cross under the same conditions are classified
    alike. *)
Lemma check_intersection_agree (fuel : nat) (r r' : needle Q) (s : Q) :
  0 < s -> (3 <= fuel)%nat ->
  (crosses r s <-> crosses r' s) ->
  check_intersection fuel r s = check_intersection fuel r' s.
Proof.
  intros Hs Hf Hiff.
  destruct (check_intersection_decides r Hs Hf) as [b [E Hb]].
  destruct (check_intersection_decides r' Hs Hf) as [b' [E' Hb']].
  rewrite E, E'. f_equal.
  destruct b, b'; try reflexivity.
  - symmetry. apply Hb'. apply Hiff. now apply Hb.
  - apply Hb. apply Hiff. now apply Hb'.
Qed.

(** X1.  The classification does not depend on which endpoint of the needle
    comes first. *)
Theorem check_intersection_symmetric (fuel : nat) (xa ya xb yb s : Q) :
  0 < s -> (3 <= fuel)%nat ->
  check_intersection fuel (Needle xa ya xb yb) s =
  check_intersection fuel (Needle xb yb xa ya) s.
Proof.
  intros Hs Hf. apply check_intersection_agree; try assumption.
  rewrite !crosses_on_needle.
  split; intros [k Hk]; exists k; apply on_needle_iff;
    apply on_needle_iff in Hk; simpl in *; tauto.
Qed.

Lemma check_intersection_symmetric_witness :
  0 < 1 /\ (3 <= 3)%nat /\
  check_intersection 3 (Needle 0 (2 # 10) 5 (13 # 10)) 1 =
  check_intersection 3 (Needle 5 (13 # 10) 0 (2 # 10)) 1.
Proof.
  split; [reflexivity|]. split; [lia|].
  apply check_intersection_symmetric; [reflexivity | lia].
Defined.

(** X5.  The rows of a batch are classified independently: the classification
    of two batches put end to end is that of the first followed by that of
    the second, and fails where the first of them fails. *)
Theorem check_intersections_batch_app (fuel : nat)
  (ps qs : list (needle Q)) (s : Q) :
  check_intersections_batch fuel (ps ++ qs) s =
  (bs <- check_intersections_batch fuel ps s ;;
   cs <- check_intersections_batch fuel qs s ;;
   Ok (bs ++ cs)).
Proof.
  unfold check_intersections_batch.
  induction ps as [|p ps IH]; simpl.
  - now destruct (for_each _ qs).
  - destruct (check_intersection fuel p s); simpl; try reflexivity.
    rewrite IH.
    destruct (for_each _ ps); simpl; try reflexivity.
    now destruct (for_each _ qs).
Qed.

End ClassifierGeometry.

(* ------------------------------------------------------------------ *)
(** ** The sampler: what it reads and where its needles lie *)

Module SamplerExtent.

(** X8.  The sampler draws three variates per needle and no other: two random
    sources that agree on the draws [0], [1], [2] of the iterations below
    [n] give the same batch. *)
Theorem generate_needles_batch_draws (num : Type) (ops : FloatOps num)
  (rnd rnd' : nat -> nat -> num) (n : Z)
  (L x_min x_max y_min y_max : num) :
  (forall i j, (i < Z.to_nat n)%nat -> (j < 3)%nat -> rnd i j = rnd' i j) ->
  generate_needles_batch rnd n L x_min x_max y_min y_max =
  generate_needles_batch rnd' n L x_min x_max y_min y_max.
Proof.
  intros Hagree. unfold generate_needles_batch.
  destruct (n <? 0)%Z; [reflexivity|]. f_equal.
  apply map_ext_in. intros i Hi. apply in_seq in Hi.
  unfold generate_needle.
  rewrite (Hagree i 0%nat), (Hagree i 1%nat), (Hagree i 2%nat) by lia.
  reflexivity.
Qed.

Lemma generate_needles_batch_draws_witness :
  generate_needles_batch (ops := QOps cos345 sin345)
    (fun i j => if (j <? 3)%nat then 1 # 2 else 0) 2 1 0 10 0 10 =
  generate_needles_batch (ops := QOps cos345 sin345)
    half_draws 2 1 0 10 0 10.
Proof.
  apply generate_needles_batch_draws.
  intros i j _ Hj. apply Nat.ltb_lt in Hj. now rewrite Hj.
Defined.

(** X9.  On the floats of the running program, with unit variates and ordered
    bounds, the first endpoint of every sampled needle is in the field,
    short of its upper edges. *)
Theorem generate_needles_batch_in_field (cosf sinf : Q -> Q)
  (rnd : nat -> nat -> Q) (n : Z) (L x_min x_max y_min y_max : Q)
  (positions : list (needle Q)) :
  unit_variates rnd -> x_min < x_max -> y_min < y_max ->
  generate_needles_batch (ops := QOps cosf sinf) rnd n L
    x_min x_max y_min y_max = Ok positions ->
  Forall (fun r => x_min <= x1 r /\ x1 r < x_max /\
                   y_min <= y1 r /\ y1 r < y_max) positions.
Proof.
  intros Hu Hx Hy. unfold generate_needles_batch.
  destruct (n <? 0)%Z; [discriminate|]. intros H; injection H as <-.
  apply Forall_forall. intros r Hr. apply in_map_iff in Hr.
  destruct Hr as [i [<- _]]. unfold generate_needle, uniform. simpl.
  destruct (Hu i 0%nat) as [A0 A1]. destruct (Hu i 1%nat) as [B0 B1].
  repeat split; nra.
Qed.

Lemma generate_needles_batch_in_field_witness :
  unit_variates half_draws /\ 0 < 10 /\
  Forall (fun r => 0 <= x1 r /\ x1 r < 10 /\ 0 <= y1 r /\ y1 r < 10)
    (map (generate_needle (ops := QOps cos345 sin345) half_draws
            1 0 10 0 10) (seq 0 2)).
Proof.
  assert (Hu : unit_variates half_draws)
    by (intros i j; split; [discriminate | reflexivity]).
  split; [exact Hu|]. split; [reflexivity|].
  apply (@generate_needles_batch_in_field cos345 sin345 half_draws 2 1
           0 10 0 10 _ Hu eq_refl eq_refl).
  reflexivity.
Defined.

Open Scope R_scope.

(** X10.  On the reals, with unit variates, ordered bounds and a length
    [L >= 0], the second endpoint of every sampled needle is within [L] of
    the field, and the two ordinates of a needle are at most [L] apart. *)
Theorem generate_needles_batch_reach (rnd : nat -> nat -> R) (n : Z)
  (L x_min x_max y_min y_max : R) (positions : list (needle R)) :
  (forall i j, 0 <= rnd i j < 1) ->
  x_min <= x_max -> y_min <= y_max -> 0 <= L ->
  generate_needles_batch (ops := ROps) rnd n L x_min x_max y_min y_max
    = Ok positions ->
  Forall (fun s =>
            x_min - L <= x2 s <= x_max + L /\
            y_min - L <= y2 s <= y_max + L /\
            Rabs (y2 s - y1 s) <= L) positions.
Proof.
  intros Hrnd Hx Hy HL. unfold generate_needles_batch.
  destruct (n <? 0)%Z; [discriminate|]. intros H; injection H as <-.
  apply Forall_forall. intros s Hs. apply in_map_iff in Hs.
  destruct Hs as [i [<- _]]. unfold generate_needle, uniform. simpl.
  set (t := 0 + (2 * PI - 0) * rnd i 2%nat).
  pose proof (COS_bound t) as Hc. pose proof (SIN_bound t) as Hsn.
  pose proof (Hrnd i 0%nat) as A. pose proof (Hrnd i 1%nat) as B.
  split; [|split].
  - split; nra.
  - split; nra.
  - apply Rabs_le. split; nra.
Qed.

Lemma generate_needles_batch_reach_witness :
  0 <= 10 /\ 0 <= 1 /\
  Forall (fun s =>
            0 - 1 <= x2 s <= 10 + 1 /\
            0 - 1 <= y2 s <= 10 + 1 /\
            Rabs (y2 s - y1 s) <= 1)
    (map (generate_needle (ops := ROps) (fun _ _ => 0) 1 0 10 0 10)
         (seq 0 2)).
Proof.
  split; [lra|]. split; [lra|].
  apply (@generate_needles_batch_reach (fun _ _ => 0) 2 1 0 10 0 10);
    [intros; lra | lra | lra | lra | reflexivity].
Defined.

End SamplerExtent.

(* ------------------------------------------------------------------ *)
(** ** The accumulator: stored needles and history *)

Module AccumulatorRecords.

Import Classifier ClassifierFacts ClassifierGeometry.
Import Accumulator AccumulatorFacts.

(** The [for] loop appends, in order, the segments of the rows classified
    [True] to the green list and those of the others to the red list. *)
Lemma fold_push_needles (l : list (needle Q * bool)) :
  forall st : state,
    green_needles (fold_left push l st)
      = green_needles st
        ++ map (fun rh => segment_of (fst rh))
               (filter (fun rh => snd rh) l) /\
    red_needles (fold_left push l st)
      = red_needles st
        ++ map (fun rh => segment_of (fst rh))
               (filter (fun rh => negb (snd rh)) l).
Proof.
  induction l as [|[row hit] l IH]; intros st.
  - simpl. now rewrite !app_nil_r.
  - cbn [fold_left]. destruct (IH (push st (row, hit))) as [G R].
    rewrite G, R. destruct hit; simpl; rewrite <- ?app_assoc; auto.
Qed.

(** What [report] keeps and what it appends. *)
Lemma report_fields (cfg : config) (frame : Z) (st st' : state) :
  report cfg frame st = Ok st' ->
  green_needles st' = green_needles st /\
  red_needles st' = red_needles st /\
  (((n_total st <= 0)%Z /\ st' = st) \/
   ((0 < n_total st)%Z /\
    history_n st' = history_n st ++ [n_total st] /\
    history_ratio st' = history_ratio st ++ [p_hat st])).
Proof.
  unfold report, p_hat.
  destruct (0 <? n_total st)%Z eqn:E.
  - apply Z.ltb_lt in E. unfold fdiv at 1 3.
    rewrite (inject_Z_pos_neq E). cbn [bind].
    destruct (Qle_bool _ (1 # 100)).
    + cbn [bind]. intros H; inversion H; subst. cbn.
      split; [reflexivity|]. split; [reflexivity|]. right. auto.
    + unfold fdiv. destruct (Qeq_bool _ 0); cbn [bind]; [discriminate|].
      intros H; inversion H; subst. cbn.
      split; [reflexivity|]. split; [reflexivity|]. right. auto.
  - apply Z.ltb_ge in E. intros H; inversion H; subst. auto.
Qed.

Lemma p_hat_unit (st : state) :
  (0 <= n_intersections st <= n_total st)%Z -> (0 < n_total st)%Z ->
  0 <= p_hat st /\ p_hat st <= 1.
Proof.
  intros [H0 H1] Hpos. unfold p_hat.
  assert (Ht : 0 < inject_Z (n_total st))
    by (change 0 with (inject_Z 0); now rewrite <- Zlt_Qlt).
  assert (Hi0 : 0 <= inject_Z (n_intersections st))
    by (change 0 with (inject_Z 0); now rewrite <- Zle_Qle).
  assert (Hi1 : inject_Z (n_intersections st) <= inject_Z (n_total st))
    by now rewrite <- Zle_Qle.
  split.
  - apply Qle_shift_div_l; [exact Ht | lra].
  - apply Qle_shift_div_r; [exact Ht | lra].
Qed.

Lemma increasing_snoc (l : list Z) (n : Z) :
  increasing l -> Forall (fun m => (m < n)%Z) l -> increasing (l ++ [n]).
Proof.
  induction l as [|a l IH]; simpl; intros Hinc Hlt.
  - split; [constructor | exact I].
  - destruct Hinc as [Ha Hl]. inversion Hlt; subst. split.
    + apply Forall_app. split; [exact Ha|]. now constructor.
    + now apply IH.
Qed.

Section Records.

Variables cosf sinf : Q -> Q.
Variable cfg : config.
Variable fuel : nat.

(** What a returning [update] leaves in the lists: the lists it was given,
    followed by what the frame adds. *)
Lemma update_lists (st : state) (frame : Z) (rnd : nat -> nat -> Q)
  (st' : state) :
  update cosf sinf cfg fuel st frame rnd = Ok st' ->
  st' = st \/
  exists positions intersects,
    (n_total st < MAX_NEEDLES cfg)%Z /\
    check_intersections_batch fuel positions (LINE_SPACING cfg)
      = Ok intersects /\
    length intersects = length positions /\
    Z.of_nat (length positions) = n_to_add cfg st /\
    (0 <= n_to_add cfg st)%Z /\
    n_total st' = (n_total st + n_to_add cfg st)%Z /\
    n_intersections st'
      = (n_intersections st + count_true intersects)%Z /\
    green_needles st'
      = green_needles st
        ++ map (fun rh => segment_of (fst rh))
               (filter (fun rh => snd rh) (combine positions intersects)) /\
    red_needles st'
      = red_needles st
        ++ map (fun rh => segment_of (fst rh))
               (filter (fun rh => negb (snd rh))
                       (combine positions intersects)) /\
    (((n_total st' <= 0)%Z /\
      history_n st' = history_n st /\
      history_ratio st' = history_ratio st) \/
     ((0 < n_total st')%Z /\
      history_n st' = history_n st ++ [n_total st'] /\
      history_ratio st' = history_ratio st ++ [p_hat st'])).
Proof.
  intros U.
  destruct (@update_inv cosf sinf _ _ _ _ _ _ U)
    as [[G E] | [G [N [ps [bs (Hg & Hc & Hl & Hl' & Hr)]]]]];
    [now left | right].
  exists ps, bs.
  destruct (fold_push_totals (combine ps bs) st) as (F1 & F2 & F3 & F4 & _).
  destruct (fold_push_needles (combine ps bs) st) as [FG FR].
  destruct (@report_inv _ _ _ _ Hr) as (R1 & R2 & _).
  destruct (@report_fields _ _ _ _ Hr) as (RG & RR & RH).
  rewrite length_combine, Hl', Nat.min_id in F1.
  rewrite map_snd_combine in F2 by (now symmetry).
  assert (Hlen : Z.of_nat (length ps) = n_to_add cfg st)
    by (rewrite Hl; now apply Z2Nat.id).
  repeat split; try assumption.
  - rewrite R1, F1. lia.
  - now rewrite R2, F2.
  - now rewrite RG, FG.
  - now rewrite RR, FR.
  - destruct RH as [[Hle E] | [Hlt [H1 H2]]].
    + left. subst st'. rewrite F3, F4. auto.
    + right. rewrite <- R1 in Hlt. split; [exact Hlt|].
      rewrite H1, H2, F3, F4. unfold p_hat. split; congruence.
Qed.

(** X11.  An [update] only appends: the needles stored and the history points
    recorded before the call are still there after it, in the same order
    and before anything new. *)
Theorem update_appends (st : state) (frame : Z) (rnd : nat -> nat -> Q)
  (st' : state) :
  update cosf sinf cfg fuel st frame rnd = Ok st' ->
  exists g r hn hr,
    green_needles st' = green_needles st ++ g /\
    red_needles st' = red_needles st ++ r /\
    history_n st' = history_n st ++ hn /\
    history_ratio st' = history_ratio st ++ hr /\
    (Z.of_nat (length g + length r) = n_total st' - n_total st)%Z /\
    (length hn <= 1)%nat /\ length hr = length hn.
Proof.
  intros U. destruct (update_lists _ _ _ U)
    as [-> | [ps [bs (G & Hc & Hl & Hn & N & Ht & Hi & Hg & Hr & Hh)]]].
  - exists [], [], [], []. rewrite !app_nil_r. simpl.
    repeat split; try reflexivity; lia.
  - assert (Hcount :
      forall l : list (needle Q * bool),
        (length (filter (fun rh => snd rh) l)
         + length (filter (fun rh => negb (snd rh)) l) = length l)%nat).
    { induction l as [|[row []] l IH]; simpl; lia. }
    assert (Hgr : forall hn hr,
              history_n st' = history_n st ++ hn ->
              history_ratio st' = history_ratio st ++ hr ->
              (length hn <= 1)%nat -> length hr = length hn ->
              exists g r hn hr,
                green_needles st' = green_needles st ++ g /\
                red_needles st' = red_needles st ++ r /\
                history_n st' = history_n st ++ hn /\
                history_ratio st' = history_ratio st ++ hr /\
                (Z.of_nat (length g + length r)
                 = n_total st' - n_total st)%Z /\
                (length hn <= 1)%nat /\ length hr = length hn).
    { intros hn hr H1 H2 H3 H4. do 2 eexists. exists hn, hr.
      split; [exact Hg|]. split; [exact Hr|].
      repeat split; try assumption.
      rewrite !length_map, Hcount, length_combine, Hl, Nat.min_id. lia. }
    destruct Hh as [(_ & H1 & H2) | (_ & H1 & H2)].
    + apply (Hgr [] []); rewrite ?app_nil_r; auto.
    + apply (Hgr [n_total st'] [p_hat st']); auto.
Qed.

(** X12.  In every state the animation reaches, the green needles are as many
    as the intersections counted, and green and red needles together as
    many as the needles counted. *)
Theorem needles_partitioned (frames : list (Z * (nat -> nat -> Q)))
  (st : state) :
  run cosf sinf cfg fuel init_state frames = Ok st ->
  Z.of_nat (length (green_needles st)) = n_intersections st /\
  Z.of_nat (length (green_needles st) + length (red_needles st))
    = n_total st.
Proof.
  apply (@run_invariant cosf sinf
           (fun s => Z.of_nat (length (green_needles s)) = n_intersections s /\
                     Z.of_nat (length (green_needles s)
                               + length (red_needles s)) = n_total s)
           cfg fuel); [|simpl; auto].
  intros s f r s' [I1 I2] U.
  destruct (update_lists _ _ _ U)
    as [-> | [ps [bs (G & Hc & Hl & Hn & N & Ht & Hi & Hg & Hr & Hh)]]];
    [now split|].
  assert (Hcount :
    forall l : list (needle Q * bool),
      Z.of_nat (length (filter (fun rh => snd rh) l)) = count_true (map snd l)
      /\ (length (filter (fun rh => snd rh) l)
          + length (filter (fun rh => negb (snd rh)) l) = length l)%nat).
  { induction l as [|[row hit] l [IH1 IH2]].
    - split; reflexivity.
    - cbn [map snd]. rewrite count_true_cons.
      destruct hit; cbn [filter snd negb length];
        rewrite ?Nat2Z.inj_succ; split; lia. }
  destruct (Hcount (combine ps bs)) as [C1 C2].
  rewrite map_snd_combine in C1 by (now symmetry).
  rewrite length_combine, Hl, Nat.min_id in C2.
  rewrite Hg, Hr, !length_app, !length_map, Hi, Ht. split; lia.
Qed.

End Records.

Lemma update_appends_witness :
  exists st' g r hn hr,
    update cos345 sin345 default_config 3 init_state 0 half_draws = Ok st' /\
    green_needles st' = green_needles init_state ++ g /\
    red_needles st' = red_needles init_state ++ r /\
    history_n st' = history_n init_state ++ hn /\
    history_ratio st' = history_ratio init_state ++ hr.
Proof.
  destruct (update cos345 sin345 default_config 3 init_state 0 half_draws)
    as [st'| |] eqn:U; try (vm_compute in U; discriminate).
  destruct (@update_appends cos345 sin345 default_config 3 init_state 0
              half_draws st' U) as (g & r & hn & hr & H1 & H2 & H3 & H4 & _).
  exists st', g, r, hn, hr. auto.
Defined.

Lemma needles_partitioned_witness :
  exists st,
    run cos345 sin345 default_config 3 init_state [(0%Z, half_draws)]
      = Ok st /\
    Z.of_nat (length (green_needles st)) = n_intersections st /\
    Z.of_nat (length (green_needles st) + length (red_needles st))
      = n_total st.
Proof.
  destruct (run cos345 sin345 default_config 3 init_state
              [(0%Z, half_draws)]) as [st| |] eqn:R;
    try (vm_compute in R; discriminate).
  exists st. split; [reflexivity|].
  exact (@needles_partitioned cos345 sin345 default_config 3
           [(0%Z, half_draws)] st R).
Defined.

(** X14.  In every state the animation reaches, the two history lists have the
    same length, every recorded ratio is between [0] and [1], every
    recorded count is positive and within [MAX_NEEDLES], and once a needle
    has been dropped the last point recorded is the current count with the
    current ratio. *)
Theorem history_sound (cosf sinf : Q -> Q) (cfg : config) (fuel : nat)
  (frames : list (Z * (nat -> nat -> Q))) (st : state) :
  run cosf sinf cfg fuel init_state frames = Ok st ->
  length (history_n st) = length (history_ratio st) /\
  Forall (fun r => 0 <= r /\ r <= 1) (history_ratio st) /\
  Forall (fun n => (0 < n <= MAX_NEEDLES cfg)%Z) (history_n st) /\
  ((0 < n_total st)%Z ->
   last (history_n st) 0%Z = n_total st /\
   last (history_ratio st) 0 = p_hat st).
Proof.
  intros Hrun.
  enough (H : (0 <= n_intersections st <= n_total st)%Z /\
              length (history_n st) = length (history_ratio st) /\
              Forall (fun r => 0 <= r /\ r <= 1) (history_ratio st) /\
              Forall (fun n => (0 < n <= MAX_NEEDLES cfg)%Z) (history_n st) /\
              ((0 < n_total st)%Z ->
               last (history_n st) 0%Z = n_total st /\
               last (history_ratio st) 0 = p_hat st)) by apply H.
  revert Hrun.
  apply (@run_invariant cosf sinf
           (fun s =>
              (0 <= n_intersections s <= n_total s)%Z /\
              length (history_n s) = length (history_ratio s) /\
              Forall (fun r => 0 <= r /\ r <= 1) (history_ratio s) /\
              Forall (fun n => (0 < n <= MAX_NEEDLES cfg)%Z) (history_n s) /\
              ((0 < n_total s)%Z ->
               last (history_n s) 0%Z = n_total s /\
               last (history_ratio s) 0 = p_hat s))
           cfg fuel).
  - intros s f r s' (I0 & I1 & I2 & I3 & I4) U.
    destruct (@update_lists cosf sinf cfg fuel _ _ _ _ U)
      as [-> | [ps [bs (G & Hc & Hl & Hn & N & Ht & Hi & Hg & Hr & Hh)]]];
      [tauto|].
    pose proof (count_true_bounds bs) as Hcb. rewrite Hl, Hn in Hcb.
    assert (I0' : (0 <= n_intersections s' <= n_total s')%Z) by lia.
    split; [exact I0'|].
    destruct Hh as [(Hle & H1 & H2) | (Hlt & H1 & H2)].
    + rewrite H1, H2. repeat split; try assumption; lia.
    + rewrite H1, H2. split; [|split; [|split]].
      * rewrite !length_app. simpl. lia.
      * apply Forall_app. split; [exact I2|]. constructor; [|constructor].
        now apply p_hat_unit.
      * apply Forall_app. split; [exact I3|]. constructor; [|constructor].
        unfold n_to_add in *. lia.
      * intros _. now rewrite !last_last.
  - simpl. repeat split; try constructor; lia.
Qed.

Lemma history_sound_witness :
  exists st,
    run cos345 sin345 default_config 3 init_state [(0%Z, half_draws)]
      = Ok st /\
    length (history_n st) = length (history_ratio st) /\
    Forall (fun r => 0 <= r /\ r <= 1) (history_ratio st).
Proof.
  destruct (run cos345 sin345 default_config 3 init_state
              [(0%Z, half_draws)]) as [st| |] eqn:R;
    try (vm_compute in R; discriminate).
  exists st. split; [reflexivity|].
  destruct (@history_sound cos345 sin345 default_config 3
              [(0%Z, half_draws)] st R) as (H1 & H2 & _).
  split; assumption.
Defined.

(** X15.  With a positive batch size, the counts recorded in the history
    increase strictly, and none exceeds the current count. *)
Theorem history_increasing (cosf sinf : Q -> Q) (cfg : config) (fuel : nat)
  (frames : list (Z * (nat -> nat -> Q))) (st : state) :
  (0 < N_NEEDLES_PER_FRAME cfg)%Z ->
  run cosf sinf cfg fuel init_state frames = Ok st ->
  increasing (history_n st) /\
  Forall (fun n => (n <= n_total st)%Z) (history_n st).
Proof.
  intros HN.
  apply (@run_invariant cosf sinf
           (fun s => increasing (history_n s) /\
                     Forall (fun n => (n <= n_total s)%Z) (history_n s))
           cfg fuel); [|simpl; auto].
  intros s f r s' [I1 I2] U.
  destruct (@update_lists cosf sinf cfg fuel _ _ _ _ U)
    as [-> | [ps [bs (G & Hc & Hl & Hn & N & Ht & Hi & Hg & Hr & Hh)]]];
    [now split|].
  assert (Hgrow : (n_total s < n_total s')%Z)
    by (unfold n_to_add in *; lia).
  destruct Hh as [(Hle & H1 & H2) | (Hlt & H1 & H2)]; rewrite H1.
  - split; [exact I1|]. eapply Forall_impl; [|exact I2].
    simpl. intros; lia.
  - split.
    + apply increasing_snoc; [exact I1|].
      eapply Forall_impl; [|exact I2]. simpl. intros; lia.
    + apply Forall_app. split.
      * eapply Forall_impl; [|exact I2]. simpl. intros; lia.
      * constructor; [lia | constructor].
Qed.

Lemma history_increasing_witness :
  (0 < N_NEEDLES_PER_FRAME default_config)%Z /\
  exists st,
    run cos345 sin345 default_config 3 init_state
        [(0%Z, half_draws); (1%Z, half_draws)] = Ok st /\
    increasing (history_n st).
Proof.
  split; [reflexivity|].
  destruct (run cos345 sin345 default_config 3 init_state
              [(0%Z, half_draws); (1%Z, half_draws)]) as [st| |] eqn:R;
    try (vm_compute in R; discriminate).
  exists st. split; [reflexivity|].
  exact (proj1 (@history_increasing cos345 sin345 default_config 3
                  [(0%Z, half_draws); (1%Z, half_draws)] st eq_refl R)).
Defined.

End AccumulatorRecords.

(* ------------------------------------------------------------------ *)
(** ** The animation: how many needles are dropped *)

Module AnimationSpec.

Import Classifier Accumulator AccumulatorFacts Animation.

Section Budget.

Variables cosf sinf : Q -> Q.
Variable cfg : config.
Variable fuel : nat.

Hypothesis batch_nonneg : (0 <= N_NEEDLES_PER_FRAME cfg)%Z.

(** One returning frame, below or at the bound. *)
Lemma update_total_min (st : state) (frame : Z) (rnd : nat -> nat -> Q)
  (st' : state) :
  (n_total st <= MAX_NEEDLES cfg)%Z ->
  update cosf sinf cfg fuel st frame rnd = Ok st' ->
  n_total st' = Z.min (n_total st + N_NEEDLES_PER_FRAME cfg) (MAX_NEEDLES cfg).
Proof.
  intros Hle U.
  destruct (@update_totals cosf sinf _ _ _ _ _ _ U)
    as [[G E] | [G [N [ps [bs (Hg & Hc & Hl & Hl' & Ht & Hi)]]]]].
  - subst st'. lia.
  - rewrite Ht, Hl. unfold n_to_add. lia.
Qed.

Lemma run_total_min (frames : list (Z * (nat -> nat -> Q))) :
  forall st st',
    (n_total st <= MAX_NEEDLES cfg)%Z ->
    run cosf sinf cfg fuel st frames = Ok st' ->
    n_total st'
    = Z.min (n_total st + Z.of_nat (length frames) * N_NEEDLES_PER_FRAME cfg)
            (MAX_NEEDLES cfg).
Proof.
  induction frames as [|[frame rnd] frames IH]; intros st st' Hle Hrun;
    simpl in Hrun.
  - injection Hrun as <-. simpl length. lia.
  - destruct (update cosf sinf cfg fuel st frame rnd) as [st1| |] eqn:U;
      simpl in Hrun; try discriminate.
    pose proof (@update_total_min st frame rnd st1 Hle U) as H1.
    rewrite (IH st1 st') by (try assumption; lia).
    rewrite H1. cbn [length]. rewrite Nat2Z.inj_succ. nia.
Qed.

End Budget.

(** X16.  After [k] frames the animation has dropped [min(k * N, MAX)] needles,
    for a batch size [N >= 0] and a budget [MAX >= 0]. *)
Theorem needles_after_frames (cosf sinf : Q -> Q) (cfg : config)
  (fuel : nat) (frames : list (Z * (nat -> nat -> Q))) (st : state) :
  (0 <= N_NEEDLES_PER_FRAME cfg)%Z -> (0 <= MAX_NEEDLES cfg)%Z ->
  run cosf sinf cfg fuel init_state frames = Ok st ->
  n_total st
  = Z.min (Z.of_nat (length frames) * N_NEEDLES_PER_FRAME cfg)
          (MAX_NEEDLES cfg).
Proof.
  intros HN HM Hrun.
  rewrite (@run_total_min cosf sinf cfg fuel HN frames init_state st HM Hrun).
  reflexivity.
Qed.

Lemma needles_after_frames_witness :
  exists st,
    run cos345 sin345 (Config 1 1 10 25) 3 init_state
        [(0%Z, half_draws); (1%Z, half_draws); (2%Z, half_draws)] = Ok st /\
    n_total st = 25%Z.
Proof.
  destruct (run cos345 sin345 (Config 1 1 10 25) 3 init_state
              [(0%Z, half_draws); (1%Z, half_draws); (2%Z, half_draws)])
    as [st| |] eqn:R; try (vm_compute in R; discriminate).
  exists st. split; [reflexivity|].
  rewrite (@needles_after_frames cos345 sin345 (Config 1 1 10 25) 3
             [(0%Z, half_draws); (1%Z, half_draws); (2%Z, half_draws)] st);
    [reflexivity | simpl; lia | simpl; lia | exact R].
Defined.

(** X17.  With a positive batch size and a budget [MAX >= 0], when the
    [MAX // N + 1] frames the script asks for have all returned, exactly
    [MAX_NEEDLES] needles have been dropped: the frame count of line 177 is
    enough to reach the budget, and the budget is not exceeded. *)
Theorem animate_reaches_budget (cosf sinf : Q -> Q) (cfg : config)
  (fuel : nat) (rnds : Z -> nat -> nat -> Q) (st : state) :
  (0 < N_NEEDLES_PER_FRAME cfg)%Z -> (0 <= MAX_NEEDLES cfg)%Z ->
  animate cosf sinf cfg fuel rnds = Ok st ->
  n_total st = MAX_NEEDLES cfg.
Proof.
  intros HN HM. unfold animate, frame_count.
  destruct (N_NEEDLES_PER_FRAME cfg =? 0)%Z eqn:E;
    [apply Z.eqb_eq in E; lia|].
  cbn [bind].
  set (n := (MAX_NEEDLES cfg / N_NEEDLES_PER_FRAME cfg + 1)%Z).
  set (frames := map (fun frame => (frame, rnds frame)) (range n)).
  intros Hrun.
  assert (HN' : (0 <= N_NEEDLES_PER_FRAME cfg)%Z) by lia.
  rewrite (@run_total_min cosf sinf cfg fuel HN' frames init_state st HM Hrun).
  assert (Hlen : Z.of_nat (length frames) = n).
  { unfold frames, range. rewrite !length_map, length_seq.
    apply Z2Nat.id. unfold n.
    pose proof (Z.div_pos (MAX_NEEDLES cfg) (N_NEEDLES_PER_FRAME cfg) HM HN).
    lia. }
  rewrite Hlen. unfold n.
  pose proof (Z.mul_succ_div_gt (MAX_NEEDLES cfg) (N_NEEDLES_PER_FRAME cfg) HN).
  simpl n_total. nia.
Qed.

Lemma animate_reaches_budget_witness :
  (0 < N_NEEDLES_PER_FRAME (Config 1 1 10 25))%Z /\
  (0 <= MAX_NEEDLES (Config 1 1 10 25))%Z /\
  exists st,
    animate cos345 sin345 (Config 1 1 10 25) 3 (fun _ => half_draws) = Ok st /\
    n_total st = 25%Z.
Proof.
  split; [reflexivity|]. split; [discriminate|].
  destruct (animate cos345 sin345 (Config 1 1 10 25) 3 (fun _ => half_draws))
    as [st| |] eqn:A; try (vm_compute in A; discriminate).
  exists st. split; [reflexivity|].
  apply (@animate_reaches_budget cos345 sin345 (Config 1 1 10 25) 3
           (fun _ => half_draws) st); [reflexivity | discriminate | exact A].
Defined.

(** X18.  The guard bounds the estimate: for [L >= 0] and [D > 0], whenever a
    numeric estimate is shown in a state the animation reaches, it lies
    between [2 L / D] and [200 L / D]. *)
Theorem estimate_bounded (cosf sinf : Q -> Q) (cfg : config) (fuel : nat)
  (frames : list (Z * (nat -> nat -> Q))) (st : state) (v : Q) :
  0 <= NEEDLE_LENGTH cfg -> 0 < LINE_SPACING cfg ->
  run cosf sinf cfg fuel init_state frames = Ok st ->
  pi_text st = Some (Estimate v) ->
  2 * NEEDLE_LENGTH cfg / LINE_SPACING cfg <= v /\
  v <= 200 * NEEDLE_LENGTH cfg / LINE_SPACING cfg.
Proof.
  intros HL HD Hrun Hv.
  assert (H : estimate_shown cfg st /\
              (0 <= n_intersections st <= n_total st)%Z).
  { revert Hrun.
    apply (@run_invariant cosf sinf
             (fun s => estimate_shown cfg s /\
                       (0 <= n_intersections s <= n_total s)%Z) cfg fuel).
    - intros s f r s' [I1 I2] U. split.
      + eapply AccumulatorSpec.update_keeps_estimate_shown; eassumption.
      + eapply update_keeps_totals_ordered; eassumption.
    - split; [|simpl; lia]. unfold estimate_shown. simpl.
      repeat split; [lia | lia]. }
  destruct H as [(H0 & Hz & Hp) Hord].
  destruct (Z.eq_dec (n_total st) 0) as [E | NE].
  - rewrite (Hz E) in Hv. discriminate.
  - assert (Hpos : (0 < n_total st)%Z) by lia.
    rewrite (Hp Hpos) in Hv. unfold guarded_estimate in Hv.
    destruct (Qle_bool (p_hat st) (1 # 100)) eqn:C; [discriminate|].
    injection Hv as <-. apply Qle_bool_false in C.
    destruct (AccumulatorRecords.p_hat_unit st Hord Hpos) as [_ P1].
    set (p := p_hat st) in *. set (L := NEEDLE_LENGTH cfg) in *.
    set (D := LINE_SPACING cfg) in *.
    assert (PD : 0 < p * D) by nra.
    split.
    + apply Qle_shift_div_l; [exact PD|].
      assert (E : 2 * L / D * (p * D) == 2 * L * p) by (field; lra).
      rewrite E. nra.
    + apply Qle_shift_div_r; [exact PD|].
      assert (E : 200 * L / D * (p * D) == 200 * L * p) by (field; lra).
      rewrite E. nra.
Qed.

Lemma estimate_bounded_witness :
  0 <= NEEDLE_LENGTH default_config /\ 0 < LINE_SPACING default_config /\
  exists st v,
    run cos345 sin345 default_config 3 init_state [(0%Z, half_draws)]
      = Ok st /\
    pi_text st = Some (Estimate v) /\
    2 * 1 / 1 <= v /\ v <= 200 * 1 / 1.
Proof.
  split; [discriminate|]. split; [reflexivity|].
  destruct (run cos345 sin345 default_config 3 init_state
              [(0%Z, half_draws)]) as [st| |] eqn:R;
    try (vm_compute in R; discriminate).
  assert (T : exists v, pi_text st = Some (Estimate v)).
  { vm_compute in R. injection R as <-. eexists. reflexivity. }
  destruct T as [v Hv]. exists st, v. split; [reflexivity|].
  split; [exact Hv|].
  apply (@estimate_bounded cos345 sin345 default_config 3
           [(0%Z, half_draws)] st v); [discriminate | reflexivity | exact R
                                       | exact Hv].
Defined.

End AnimationSpec.

(* ------------------------------------------------------------------ *)
(** ** The classifier on [float64]: what the machine computes *)

Module Float64Spec.

Import PrimFloat Float64.

Lemma sweep_trace_result (fuel : nat)
  (y_min y_max s above line_y : float) (b : bool) (l : list float) :
  sweep_trace fuel y_min y_max s above line_y = Returns (b, l) ->
  sweep fuel y_min y_max s above line_y = Returns b.
Proof.
  revert line_y b l. induction fuel as [|fuel IH]; intros line_y b l; simpl.
  - discriminate.
  - destruct (line_y <=? above)%float.
    + destruct (between y_min line_y y_max).
      * intros H; injection H as <- _. reflexivity.
      * destruct (sweep_trace fuel y_min y_max s above (line_y + s)%float)
          as [[b' l']| |] eqn:E; try discriminate.
        intros H; injection H as <- _. simpl. eapply IH; exact E.
    + intros H; injection H as <- _. reflexivity.
Qed.

(** The shape of a returning sweep: the candidates are the rounded sums
    from the start, none is above [line_above], and the loop is left on
    the first candidate inside the interval, or with [line_y] above
    [line_above] when there is none. *)
Lemma sweep_trace_shape (fuel : nat)
  (y_min y_max s above line_y : float) (b : bool) (l : list float) :
  sweep_trace fuel y_min y_max s above line_y = Returns (b, l) ->
  progression line_y s l /\
  Forall (fun c => (c <=? above)%float = true) l /\
  (if b then
     exists visited c,
       l = visited ++ [c] /\ between y_min c y_max = true /\
       Forall (fun v => between y_min v y_max = false) visited
   else
     Forall (fun v => between y_min v y_max = false) l /\
     (after line_y s l <=? above)%float = false).
Proof.
  revert line_y b l. induction fuel as [|fuel IH]; intros line_y b l; simpl.
  - discriminate.
  - destruct (line_y <=? above)%float eqn:C.
    + destruct (between y_min line_y y_max) eqn:B.
      * intros H; injection H as <- <-. simpl.
        split; [auto|]. split; [repeat constructor; exact C|].
        exists [], line_y. simpl. auto.
      * destruct (sweep_trace fuel y_min y_max s above (line_y + s)%float)
          as [[b' l']| |] eqn:E; try discriminate.
        intros H; injection H as <- <-. simpl.
        destruct (IH _ _ _ E) as (P & F & R).
        split; [auto|]. split; [constructor; assumption|].
        destruct b'.
        -- destruct R as (visited & c & -> & Hc & Hv).
           exists (line_y :: visited), c. simpl.
           split; [reflexivity|]. split; [exact Hc|]. now constructor.
        -- destruct R as [Hv Ha]. split; [now constructor | exact Ha].
    + intros H; injection H as <- <-. simpl.
      split; [exact I|]. split; [constructor|]. split; [constructor|exact C].
Qed.

(** C1.  On [float64] the classifier and the line family disagree, both
    ways.  With [D = 0.001] the needle with ordinates 0.00975 and 0.01 is
    classified [False], though the line [10 * D] is the ordinate 0.01
    itself, as a product of floats and as an exact number.  With [D = 0.1]
    the needle with both ordinates 0.5 is classified [True], though no
    integer multiple of the float 0.1 equals 0.5.  The scenario with
    [D = 1] is classified as the claim says: [True] for (0,0)-(0,1) and
    [False] for (0,0.2)-(0,0.3). *)
Theorem classifier_disagrees_with_line_family (fuel : nat) :
  (check_intersections_batch (3 + fuel)
     [Needle 0 0x1.3f7ced916872bp-7 0 0x1.47ae147ae147bp-7]%float
     0x1.0624dd2f1a9fcp-10%float = Returns [false] /\
   (of_int 10 * 0x1.0624dd2f1a9fcp-10 = 0x1.47ae147ae147bp-7)%float /\
   exact 0x1.3f7ced916872bp-7 <= 10 * exact 0x1.0624dd2f1a9fcp-10 /\
   10 * exact 0x1.0624dd2f1a9fcp-10 == exact 0x1.47ae147ae147bp-7) /\
  (check_intersections_batch (3 + fuel)
     [Needle 0 0x1p-1 0 0x1p-1]%float 0x1.999999999999ap-4%float
   = Returns [true] /\
   forall k : Z,
     ~ inject_Z k * exact 0x1.999999999999ap-4 == exact 0x1p-1) /\
  check_intersections_batch (3 + fuel)
    [Needle 0 0 0 1; Needle 0 0x1.999999999999ap-3 0 0x1.3333333333333p-2]%float
    1%float = Returns [true; false].
Proof.
  split; [|split].
  - split; [vm_compute; reflexivity|]. split; [vm_compute; reflexivity|].
    split.
    + apply Qle_bool_iff. vm_compute. reflexivity.
    + apply Qeq_bool_iff. vm_compute. reflexivity.
  - split; [vm_compute; reflexivity|]. intros k H.
    assert (E1 : exact 0x1.999999999999ap-4
                 = (7205759403792794 # 72057594037927936))
      by (vm_compute; reflexivity).
    assert (E2 : exact 0x1p-1 = (4503599627370496 # 9007199254740992))
      by (vm_compute; reflexivity).
    rewrite E1, E2 in H. unfold Qeq in H. cbn [Qnum Qden Qmult inject_Z] in H.
    lia.
  - vm_compute. reflexivity.
Qed.

(** C2, as the code has it.  The classifier evaluates the test with the
    sweep loop: when it returns, the candidates it has visited start at
    [line_below = int(y_min/spacing) * spacing] and go on by
    [line_y += spacing], none is above
    [line_above = (int(y_max/spacing) + 1) * spacing], and the result is
    [True] on the first candidate inside [[y_min, y_max]], [False] once
    [line_y] is above [line_above] with no candidate inside. *)
Theorem classifier_is_a_line_sweep (fuel : nat) (row : needle float)
  (spacing : float) (b : bool) (l : list float) :
  candidates fuel row spacing = Returns (b, l) ->
  check_intersection fuel row spacing = Returns b /\
  exists lo hi,
    int (pymin (y1 row) (y2 row) / spacing)%float = Some lo /\
    int (pymax (y1 row) (y2 row) / spacing)%float = Some hi /\
    progression (of_int lo * spacing)%float spacing l /\
    Forall (fun c => (c <=? of_int (wrap (hi + 1)) * spacing)%float = true)
           l /\
    (if b then
       exists visited c,
         l = visited ++ [c] /\
         between (pymin (y1 row) (y2 row)) c (pymax (y1 row) (y2 row))
           = true /\
         Forall (fun v => between (pymin (y1 row) (y2 row)) v
                                  (pymax (y1 row) (y2 row)) = false) visited
     else
       Forall (fun v => between (pymin (y1 row) (y2 row)) v
                                (pymax (y1 row) (y2 row)) = false) l /\
       (after (of_int lo * spacing)%float spacing l
        <=? of_int (wrap (hi + 1)) * spacing)%float = false).
Proof.
  unfold candidates, check_intersection, line_bounds.
  destruct (int (pymin (y1 row) (y2 row) / spacing)%float) as [lo|];
    [|discriminate].
  destruct (int (pymax (y1 row) (y2 row) / spacing)%float) as [hi|];
    [|discriminate].
  intros H. split; [exact (sweep_trace_result _ _ _ _ _ _ H)|].
  exists lo, hi. split; [reflexivity|]. split; [reflexivity|].
  exact (sweep_trace_shape _ _ _ _ _ _ H).
Qed.

Lemma classifier_is_a_line_sweep_witness :
  candidates 3 (Needle 0 0x1.999999999999ap-3 0 0x1.3333333333333p-2)%float
    1%float = Returns (false, [0; 1]%float) /\
  check_intersection 3
    (Needle 0 0x1.999999999999ap-3 0 0x1.3333333333333p-2)%float 1%float
  = Returns false.
Proof.
  split; [vm_compute; reflexivity|].
  apply (@classifier_is_a_line_sweep 3
           (Needle 0 0x1.999999999999ap-3 0 0x1.3333333333333p-2)%float
           1%float false [0; 1]%float).
  vm_compute. reflexivity.
Defined.

(** C2, as the specification states it, fails: the test is not a single
    arithmetic evaluation.  On the needle (0,0.2)-(0,0.3) with spacing 1
    the loop body runs on the candidate 0 and then, one spacing-step
    later, on the candidate 1. *)
Lemma classifier_visits_two_candidates :
  candidates 3 (Needle 0 0x1.999999999999ap-3 0 0x1.3333333333333p-2)%float
    1%float = Returns (false, [0; 1]%float) /\
  ~ (forall fuel row spacing b l,
       candidates fuel row spacing = Returns (b, l) -> (length l <= 1)%nat).
Proof.
  split; [vm_compute; reflexivity|].
  intros H.
  assert (E : candidates 3
                (Needle 0 0x1.999999999999ap-3 0 0x1.3333333333333p-2)%float
                1%float = Returns (false, [0; 1]%float))
    by (vm_compute; reflexivity).
  specialize (H _ _ _ _ _ E). simpl in H. lia.
Qed.

(** C6.  A needle lying on a line can be missed.  With [D = 0.01] the
    needle whose two ordinates are the float [116 * D], where the figure
    draws the line number 116, is classified [False]: [int(y/D)] is 115,
    the only candidate is [115 * D], and the next one is above
    [line_above].  With [D = 0.001] the needle with ordinates 0.00975 and
    0.01 has its upper endpoint on the line [10 * D], exactly, and is
    classified [False]. *)
Theorem needle_on_a_line_missed (fuel : nat) :
  (candidates (3 + fuel)
     (Needle 0 (of_int 116 * 0x1.47ae147ae147bp-7)
             0 (of_int 116 * 0x1.47ae147ae147bp-7))%float
     0x1.47ae147ae147bp-7%float
   = Returns (false, [(of_int 115 * 0x1.47ae147ae147bp-7)%float]) /\
   check_intersection (3 + fuel)
     (Needle 0 (of_int 116 * 0x1.47ae147ae147bp-7)
             0 (of_int 116 * 0x1.47ae147ae147bp-7))%float
     0x1.47ae147ae147bp-7%float = Returns false) /\
  (check_intersection (3 + fuel)
     (Needle 0 0x1.3f7ced916872bp-7 0 0x1.47ae147ae147bp-7)%float
     0x1.0624dd2f1a9fcp-10%float = Returns false /\
   (of_int 10 * 0x1.0624dd2f1a9fcp-10 = 0x1.47ae147ae147bp-7)%float /\
   exact 0x1.47ae147ae147bp-7 == 10 * exact 0x1.0624dd2f1a9fcp-10).
Proof.
  split; [split | split; [|split]]; vm_compute; reflexivity.
Qed.

(** C10.  The sweep loop does not always terminate.  With the positive
    spacing [1e-16] and the needle with ordinates 7.9 and 7.95, the loop
    starts at [line_below = 7.8999999999999995], below the needle and
    below [line_above]; adding the spacing to it gives the same float
    again, so [line_y] never moves and the loop is never left, whatever
    the fuel. *)
Theorem sweep_never_exits (fuel : nat) :
  (0 <? 0x1.cd2b297d889bcp-54)%float = true /\
  line_bounds (Needle 0 0x1.f99999999999ap+2 0 0x1.fcccccccccccdp+2)%float
    0x1.cd2b297d889bcp-54%float
  = Some (0x1.f999999999999p+2, 0x1.fcccccccccccdp+2)%float /\
  (0x1.f999999999999p+2 + 0x1.cd2b297d889bcp-54
   = 0x1.f999999999999p+2)%float /\
  check_intersection fuel
    (Needle 0 0x1.f99999999999ap+2 0 0x1.fcccccccccccdp+2)%float
    0x1.cd2b297d889bcp-54%float = Running.
Proof.
  assert (B : line_bounds
                (Needle 0 0x1.f99999999999ap+2 0 0x1.fcccccccccccdp+2)%float
                0x1.cd2b297d889bcp-54%float
              = Some (0x1.f999999999999p+2, 0x1.fcccccccccccdp+2)%float)
    by (vm_compute; reflexivity).
  split; [vm_compute; reflexivity|]. split; [exact B|].
  split; [vm_compute; reflexivity|].
  unfold check_intersection. rewrite B.
  change (pymin _ _) with 0x1.f99999999999ap+2%float.
  change (pymax _ _) with 0x1.fcccccccccccdp+2%float.
  induction fuel as [|fuel IH]; [reflexivity|].
  cbn [sweep].
  change (0x1.f999999999999p+2 <=? 0x1.fcccccccccccdp+2)%float with true.
  change (between 0x1.f99999999999ap+2 0x1.f999999999999p+2
                  0x1.fcccccccccccdp+2)%float with false.
  change (0x1.f999999999999p+2 + 0x1.cd2b297d889bcp-54)%float
    with 0x1.f999999999999p+2%float.
  exact IH.
Qed.

End Float64Spec.
